(** * The paginated fetch controller of [useCharacters]

    A shallow embedding of [my-app/src/components/characters/hooks.ts].

    The hook is asynchronous: [fetchData] suspends at [await fetch(...)],
    at [await response.json()] and at the back-off [setTimeout], and React
    re-runs the two [useEffect]s whenever their dependency changed.  The
    embedding is an event machine.  A [World] holds the five [useState]
    cells, the suspended activations of [fetchData] (one per
    [AbortController]), the armed timers and a log of the network and timer
    calls made so far.  An [Event] is what the environment can deliver: a
    call of [setPage], the settling of a pending promise, the passing of
    time, the unmounting of the component.  [step] runs the synchronous code
    segment the event resumes, up to the next [await], and then the effects
    React would run. *)

From Stdlib Require Import ZArith Lia DecimalString.
From stdpp Require Import gmap strings list.

Local Open Scope Z_scope.

(** ** Data *)

(** Modelled from the spec: the declarations of ['./characters'], imported by
    hooks.ts at line 2, are not among the sources.  The fields of a character
    are those the components read ([url], [name], [height], [birth_year],
    [eye_color]); a page of the API is [{previous, next, results}]. *)
Record StarWarsCharacter := {
  url : string;
  name : string;
  height : string;
  birth_year : string;
  eye_color : string
}.

Record Pages := {
  previous : option string;
  next : option string
}.

Record StarWarsApiResponse := {
  data_previous : option string;
  data_next : option string;
  results : list StarWarsCharacter
}.

(** The five [useState] cells, hooks.ts lines 5-9. *)
Record Hook := {
  loading : bool;
  error : option string;
  characters : list StarWarsCharacter;
  currentPage : option string;
  pages : Pages
}.

Definition initial : Hook :=
  {| loading := true; error := None; characters := [];
     currentPage := None; pages := {| previous := None; next := None |} |}.

Definition setLoading (b : bool) (h : Hook) : Hook :=
  {| loading := b; error := error h; characters := characters h;
     currentPage := currentPage h; pages := pages h |}.

Definition setError (e : option string) (h : Hook) : Hook :=
  {| loading := loading h; error := e; characters := characters h;
     currentPage := currentPage h; pages := pages h |}.

Definition setCharacters (cs : list StarWarsCharacter) (h : Hook) : Hook :=
  {| loading := loading h; error := error h; characters := cs;
     currentPage := currentPage h; pages := pages h |}.

Definition setCurrentPage (p : option string) (h : Hook) : Hook :=
  {| loading := loading h; error := error h; characters := characters h;
     currentPage := p; pages := pages h |}.

Definition setPages (p : Pages) (h : Hook) : Hook :=
  {| loading := loading h; error := error h; characters := characters h;
     currentPage := currentPage h; pages := p |}.

(** ** JavaScript values the code inspects *)

(** What a [catch (err: unknown)] can receive: an [Error] instance with its
    [name], [message] and numeric [cause] ([None] when [cause] is undefined,
    so that both comparisons of line 46 are false), or any other value. *)
Inductive Thrown :=
| JsError (ename : string) (message : string) (cause : option Z)
| NotAnError.

(** The rejection of a [fetch] whose signal is aborted: a [DOMException]
    named [AbortError], which is an [Error] instance. *)
Definition abortError : Thrown :=
  JsError "AbortError" "The operation was aborted." None.

(** A network-level failure of [fetch]: a [TypeError] without [cause]. *)
Definition networkError (msg : string) : Thrown := JsError "TypeError" msg None.

Record Response := {
  status : Z;
  statusText : string
}.

(** [response.ok]: the status is in the range 200-299. *)
Definition ok (r : Response) : bool := (200 <=? status r) && (status r <=? 299).

(** A settled promise. *)
Inductive Settled (A : Type) :=
| Fulfilled (a : A)
| Rejected (t : Thrown).
Arguments Fulfilled {A} a.
Arguments Rejected {A} t.

(** The template literal of line 30 prints the status in decimal. *)
Definition show (z : Z) : string := NilZero.string_of_int (Z.to_int z).

(** Lines 30-33: the error thrown for a response that is not [ok]. *)
Definition httpError (r : Response) : Thrown :=
  JsError "Error" (show (status r) +:+ ": " +:+ statusText r) (Some (status r)).

(** Truthiness of a [string | null]: [null] and the empty string are falsy. *)
Definition truthy (v : option string) : bool :=
  match v with
  | Some s => negb (String.eqb s "")
  | None => false
  end.

(** ** The world around the hook *)

(** Where an activation of [fetchData] is suspended. *)
Inductive Await :=
| AwaitFetch   (* line 25 *)
| AwaitJson    (* line 36 *)
| AwaitDelay.  (* line 56 *)

(** A suspended chain of [fetchData] calls.  [cursor] is the [currentPage]
    the effect closed over; [attempts] is the argument of the innermost
    call, so [attempts + 1] frames are waiting to run their [finally]. *)
Record Call := {
  cursor : option string;
  attempts : Z;
  awaiting : Await
}.

Inductive TimerKind :=
| Dismiss               (* the timer of lines 73-75 *)
| Backoff (c : nat).    (* the timer of line 56, of controller [c] *)

Record Timer := {
  remaining : Z;
  callback : TimerKind
}.

Inductive Effect :=
| EFetch (c : nat) (target : string)
| ESetTimeout (k : TimerKind) (ms : Z)
| EAbort (c : nat).

Record World := {
  hook : Hook;
  mounted : bool;
  controller : nat;          (* the AbortController of the current effect *)
  aborted : list nat;        (* controllers whose signal is aborted *)
  calls : gmap nat Call;     (* suspended fetchData chains, by controller *)
  timers : list Timer;       (* armed timers, oldest first *)
  log : list Effect
}.

#[global] Instance TimerKind_eq_dec : EqDecision TimerKind.
Proof. solve_decision. Defined.

#[global] Instance Await_eq_dec : EqDecision Await.
Proof. solve_decision. Defined.

(** A state setter; React ignores it once the component is unmounted. *)
Definition update (f : Hook -> Hook) (w : World) : World :=
  if mounted w then
    {| hook := f (hook w); mounted := mounted w; controller := controller w;
       aborted := aborted w; calls := calls w; timers := timers w; log := log w |}
  else w.

Definition with_calls (m : gmap nat Call) (w : World) : World :=
  {| hook := hook w; mounted := mounted w; controller := controller w;
     aborted := aborted w; calls := m; timers := timers w; log := log w |}.

Definition with_timers (ts : list Timer) (w : World) : World :=
  {| hook := hook w; mounted := mounted w; controller := controller w;
     aborted := aborted w; calls := calls w; timers := ts; log := log w |}.

Definition emit (e : Effect) (w : World) : World :=
  {| hook := hook w; mounted := mounted w; controller := controller w;
     aborted := aborted w; calls := calls w; timers := timers w;
     log := log w ++ [e] |}.

Definition setTimeout (k : TimerKind) (ms : Z) (w : World) : World :=
  emit (ESetTimeout k ms)
    (with_timers (timers w ++ [{| remaining := ms; callback := k |}]) w).

Definition clearTimeout (k : TimerKind) (w : World) : World :=
  with_timers (filter (fun t => callback t <> k) (timers w)) w.

(** ** [fetchData], segment by segment *)

Definition MAX_RETRIES : Z := 3.

Definition default_url : string := "https://swapi.dev/api/people".

(** Lines 20-23. *)
Definition request_url (page : option string) : string :=
  match page with
  | Some p => if truthy page then p else default_url
  | None => default_url
  end.

(** Lines 17-27: entry of [fetchData(attempts)] up to [await fetch]. *)
Definition fetchData_enter (c : nat) (page : option string) (n : Z)
    (w : World) : World :=
  let w := update (setLoading true) w in
  let w := update (setError None) w in
  let w := emit (EFetch c (request_url page)) w in
  with_calls (<[c := {| cursor := page; attempts := n; awaiting := AwaitFetch |}]>
                (calls w)) w.

(** Lines 59-61, once for every frame of the chain, innermost first; the
    chain is then finished. *)
Definition finally_ (c : nat) (k : Call) (w : World) : World :=
  let w := Nat.iter (S (Z.to_nat (attempts k))) (update (setLoading false)) w in
  with_calls (delete c (calls w)) w.

(** Line 46. *)
Definition client_error (cause : option Z) : bool :=
  match cause with
  | Some s => (400 <=? s) && (s <? 500)
  | None => false
  end.

(** Line 55. *)
Definition backoff (n : Z) : Z := 2 ^ n * 1000.

(** Lines 43-58: the [catch] block. *)
Definition catch_ (c : nat) (k : Call) (err : Thrown) (w : World) : World :=
  match err with
  | JsError ename message cause =>
      if negb (String.eqb ename "AbortError") then
        if client_error cause then
          finally_ c k (update (setError (Some message)) w)
        else if MAX_RETRIES <=? attempts k then
          finally_ c k (update (setError (Some message)) w)
        else
          let w := setTimeout (Backoff c) (backoff (attempts k)) w in
          with_calls (<[c := {| cursor := cursor k; attempts := attempts k;
                                awaiting := AwaitDelay |}]> (calls w)) w
      else finally_ c k w
  | NotAnError => finally_ c k w
  end.

(** Lines 25-36: [fetch] has settled. *)
Definition fetch_settled (c : nat) (k : Call) (r : Settled Response)
    (w : World) : World :=
  match r with
  | Fulfilled resp =>
      if ok resp then
        with_calls (<[c := {| cursor := cursor k; attempts := attempts k;
                              awaiting := AwaitJson |}]> (calls w)) w
      else catch_ c k (httpError resp) w
  | Rejected err => catch_ c k err w
  end.

(** Lines 36-42: [response.json()] has settled. *)
Definition json_settled (c : nat) (k : Call) (r : Settled StarWarsApiResponse)
    (w : World) : World :=
  match r with
  | Fulfilled data =>
      let w := update (setPages {| previous := data_previous data;
                                   next := data_next data |}) w in
      let w := update (setCharacters (results data)) w in
      finally_ c k w
  | Rejected err => catch_ c k err w
  end.

(** Lines 56-57: the back-off is over, [fetchData(attempts + 1)]. *)
Definition delay_elapsed (c : nat) (k : Call) (w : World) : World :=
  fetchData_enter c (cursor k) (attempts k + 1) w.

(** ** The effects *)

(** Lines 66-68. *)
Definition fetch_cleanup (w : World) : World :=
  emit (EAbort (controller w))
    {| hook := hook w; mounted := mounted w; controller := controller w;
       aborted := controller w :: aborted w; calls := calls w;
       timers := timers w; log := log w |}.

(** Lines 11-64: a new [AbortController], then [fetchData()]. *)
Definition fetch_effect (w : World) : World :=
  let c := S (controller w) in
  fetchData_enter c (currentPage (hook w)) 0
    {| hook := hook w; mounted := mounted w; controller := c;
       aborted := aborted w; calls := calls w; timers := timers w;
       log := log w |}.

(** Lines 77-79. *)
Definition error_cleanup (w : World) : World := clearTimeout Dismiss w.

(** Lines 72-76. *)
Definition error_effect (w : World) : World :=
  if truthy (error (hook w)) then setTimeout Dismiss 3000 w else w.

(** After a code segment has run, React renders and re-runs each effect
    whose dependency differs from the one of the previous render: the fetch
    effect on [currentPage] (line 69), then the error effect on [error]
    (line 81), which also sees what [fetchData] set synchronously. *)
Definition commit (prev : Hook) (w : World) : World :=
  if mounted w then
    let w1 := if decide (currentPage (hook w) = currentPage prev) then w
              else fetch_effect (fetch_cleanup w) in
    if decide (error (hook w1) = error prev) then w1
    else error_effect (error_cleanup w1)
  else w.

Definition handle (f : World -> World) (w : World) : World :=
  commit (hook w) (f w).

(** The first render: both effects run. *)
Definition mount : World :=
  error_effect
    (fetchData_enter 0%nat None 0
       {| hook := initial; mounted := true; controller := 0%nat; aborted := [];
          calls := ∅; timers := []; log := [] |}).

(** Lines 83-88. *)
Definition setPage (page : option string) (w : World) : World :=
  if negb (truthy page) then w else update (setCurrentPage page) w.

(** Unmounting runs both clean-ups; the state is discarded. *)
Definition unmount (w : World) : World :=
  if mounted w then
    let w := error_cleanup (fetch_cleanup w) in
    {| hook := hook w; mounted := false; controller := controller w;
       aborted := aborted w; calls := calls w; timers := timers w; log := log w |}
  else w.

(** ** Time *)

(** The timer that fires next: the least [remaining], the oldest on a tie. *)
Fixpoint earliest (ts : list Timer) : option Timer :=
  match ts with
  | [] => None
  | t :: ts' =>
      match earliest ts' with
      | Some u => if remaining u <? remaining t then Some u else Some t
      | None => Some t
      end
  end.

Definition due (dt : Z) (ts : list Timer) : option Timer :=
  match earliest ts with
  | Some t => if remaining t <=? dt then Some t else None
  | None => None
  end.

Definition age (d : Z) (w : World) : World :=
  with_timers
    ((fun t => {| remaining := remaining t - d; callback := callback t |})
       <$> timers w) w.

(** The callback of a timer that has expired. *)
Definition fire (k : TimerKind) (w : World) : World :=
  match k with
  | Dismiss => handle (update (setError None)) w
  | Backoff c =>
      match calls w !! c with
      | Some call =>
          match awaiting call with
          | AwaitDelay => handle (delay_elapsed c call) w
          | _ => w
          end
      | None => w
      end
  end.

(** [dt] milliseconds pass: the timers that expire fire in order, each at
    its own time.  A callback arms no timer, so [fuel] need not exceed the
    number of armed timers. *)
Fixpoint elapse (fuel : nat) (dt : Z) (w : World) : World :=
  match fuel with
  | O => age dt w
  | S n =>
      match due dt (timers w) with
      | Some t =>
          elapse n (dt - remaining t)
            (fire (callback t) (clearTimeout (callback t) (age (remaining t) w)))
      | None => age dt w
      end
  end.

(** ** Events *)

Inductive Event :=
| SetPage (page : option string)
| FetchSettled (c : nat) (r : Settled Response)
| JsonSettled (c : nat) (r : Settled StarWarsApiResponse)
| Elapse (dt : Z)
| Unmount.

Definition step (w : World) (e : Event) : World :=
  match e with
  | SetPage page => handle (setPage page) w
  | FetchSettled c r =>
      match calls w !! c with
      | Some k =>
          match awaiting k with
          | AwaitFetch => handle (fetch_settled c k r) w
          | _ => w
          end
      | None => w
      end
  | JsonSettled c r =>
      match calls w !! c with
      | Some k =>
          match awaiting k with
          | AwaitJson => handle (json_settled c k r) w
          | _ => w
          end
      | None => w
      end
  | Elapse dt => if 0 <=? dt then elapse (length (timers w)) dt w else w
  | Unmount => unmount w
  end.

Definition run (es : list Event) (w : World) : World := fold_left step es w.

(** ** What the log shows *)

(** The targets of the network attempts made so far. *)
Definition requests (l : list Effect) : list string :=
  omap (fun e => match e with
                 | EFetch _ u => Some u
                 | _ => None
                 end) l.

(** The back-off waits started so far. *)
Definition waits (l : list Effect) : list Z :=
  omap (fun e => match e with
                 | ESetTimeout (Backoff _) ms => Some ms
                 | _ => None
                 end) l.

(** The pending auto-dismiss timers. *)
Definition dismissals (w : World) : list Z :=
  omap (fun t => match callback t with
                 | Dismiss => Some (remaining t)
                 | Backoff _ => None
                 end) (timers w).

(** * The vocabulary of the statements *)

(** The armed back-off timers. *)
Definition backoff_timers (w : World) : list Timer :=
  filter (fun t => callback t <> Dismiss) (timers w).

(** Two worlds that differ at most in the auto-dismiss timer (and in the
    log entries of that timer). *)
Record agree (w w' : World) : Prop := {
  agree_hook : hook w' = hook w;
  agree_mounted : mounted w' = mounted w;
  agree_controller : controller w' = controller w;
  agree_aborted : aborted w' = aborted w;
  agree_calls : calls w' = calls w;
  agree_requests : requests (log w') = requests (log w);
  agree_waits : waits (log w') = waits (log w);
  agree_backoff : backoff_timers w' = backoff_timers w
}.

(** What the [try] block throws when [fetch] settles with [r]. *)
Definition failure_of (r : Settled Response) : option Thrown :=
  match r with
  | Fulfilled resp => if ok resp then None else Some (httpError resp)
  | Rejected err => Some err
  end.

(** The failures the [catch] block retries: an [Error] that is not an abort
    and carries no status in [[400, 500)]. *)
Definition transient (err : Thrown) : bool :=
  match err with
  | JsError n _ cause => negb (String.eqb n "AbortError") && negb (client_error cause)
  | NotAnError => false
  end.

(** [fails_with c k e err]: the event [e] makes the promise the chain [k] of
    controller [c] is waiting for fail with [err], be it the [fetch] (a
    rejection, or a response that is not [ok]) or the decoding of the body. *)
Inductive fails_with (c : nat) (k : Call) : Event -> Thrown -> Prop :=
| fetch_fails (r : Settled Response) (err : Thrown) :
    awaiting k = AwaitFetch ->
    failure_of r = Some err ->
    fails_with c k (FetchSettled c r) err
| json_fails (err : Thrown) :
    awaiting k = AwaitJson ->
    fails_with c k (JsonSettled c (Rejected err)) err.

Ltac world w :=
  let h := fresh "h" in
  let mt := fresh "mt" in
  destruct w as [h mt ? ? ? ? ?];
  cbn [hook mounted controller aborted calls timers log] in *; subst.

Ltac wsimpl :=
  cbn [hook mounted controller aborted calls timers log
       update with_calls with_timers emit setTimeout clearTimeout
       fetchData_enter fetch_cleanup fetch_effect error_cleanup error_effect
       loading error characters currentPage pages
       setLoading setError setCharacters setCurrentPage setPages].

(** [sequence_start w c u l]: in [w] a logical fetch sequence has just
    started, on controller [c] and for the target [u], either by the first
    render or by a [setPage] that changed the cursor; [l] is the log of
    before its first request. *)
Inductive sequence_start : World -> nat -> string -> list Effect -> Prop :=
| start_on_mount :
    sequence_start mount 0%nat default_url []
| start_on_setPage (w0 : World) (page : string) :
    mounted w0 = true ->
    page <> "" ->
    currentPage (hook w0) <> Some page ->
    sequence_start (step w0 (SetPage (Some page))) (S (controller w0)) page
      (log w0 ++ [EAbort (controller w0)]).

(** The items and the page links the consumer reads. *)
Definition shown (w : World) : list StarWarsCharacter * Pages :=
  (characters (hook w), pages (hook w)).

(** The items and the page links of one response. *)
Definition page_of (data : StarWarsApiResponse) : list StarWarsCharacter * Pages :=
  (results data, {| previous := data_previous data; next := data_next data |}).

(** A setter of another cell. *)
Definition keeps_page (f : Hook -> Hook) : Prop :=
  forall h, characters (f h) = characters h /\ pages (f h) = pages h.

(** The events of a sequence in which every attempt is answered with
    status 503: each answer is followed by the back-off wait the controller
    has just started. *)
Definition always_503 (c : nat) (txt : string) : list Event :=
  let answer := FetchSettled c (Fulfilled {| status := 503; statusText := txt |}) in
  [answer; Elapse 1000; answer; Elapse 2000; answer; Elapse 4000; answer].

(** A code segment that leaves the auto-dismiss timer and the mounting
    alone. *)
Definition spares_dismiss (f : World -> World) : Prop :=
  forall w, mounted (f w) = mounted w /\ dismissals (f w) = dismissals w.

(** The invariant: a pending auto-dismiss timer belongs to a mounted
    component that shows an error. *)
Definition dismiss_inv (w : World) : Prop :=
  (mounted w = false -> dismissals w = []) /\
  (truthy (error (hook w)) = false -> dismissals w = []).

(** ** Sequences with retries *)

(** The three ways in which one attempt can fail. *)
Inductive Failure :=
| NetworkFailure (err : Thrown)               (* [fetch] rejects *)
| BadStatus (resp : Response)                 (* the response is not [ok] *)
| BadBody (resp : Response) (err : Thrown).   (* [response.json()] rejects *)

(** What the [try] block throws then. *)
Definition thrown_by (f : Failure) : option Thrown :=
  match f with
  | NetworkFailure err => Some err
  | BadStatus resp => if ok resp then None else Some (httpError resp)
  | BadBody resp err => if ok resp then Some err else None
  end.

(** The events of one failed attempt of controller [c]. *)
Definition failed_attempt (c : nat) (f : Failure) : list Event :=
  match f with
  | NetworkFailure err => [FetchSettled c (Rejected err)]
  | BadStatus resp => [FetchSettled c (Fulfilled resp)]
  | BadBody resp err => [FetchSettled c (Fulfilled resp); JsonSettled c (Rejected err)]
  end.

(** The events of the failed attempts [fs], the first of which is attempt
    number [a], each followed by the back-off wait it starts. *)
Fixpoint retries (c : nat) (a : Z) (fs : list Failure) : list Event :=
  match fs with
  | [] => []
  | f :: fs' => failed_attempt c f ++ Elapse (backoff a) :: retries c (a + 1) fs'
  end.

(** The waits of [n] consecutive retries, from attempt number [a] on. *)
Fixpoint backoffs (a : Z) (n : nat) : list Z :=
  match n with
  | O => []
  | S n' => backoff a :: backoffs (a + 1) n'
  end.

(** A failure the [catch] block retries while retries are left. *)
Definition retried (f : Failure) : Prop :=
  exists err, thrown_by f = Some err /\ transient err = true.

(** [attempting c page a w]: in [w] attempt number [a] of the sequence of
    controller [c] is waiting for its [fetch], and no timer is armed. *)
Record attempting (c : nat) (page : option string) (a : Z) (w : World) : Prop := {
  at_mounted : mounted w = true;
  at_timers : timers w = [];
  at_call : calls w !! c =
            Some {| cursor := page; attempts := a; awaiting := AwaitFetch |};
  at_loading : loading (hook w) = true;
  at_error : error (hook w) = None
}.

(** ** The requests of one controller *)

(** The network attempts of the log, with the controller that made each. *)
Definition fetch_log (l : list Effect) : list (nat * string) :=
  omap (fun e => match e with
                 | EFetch c u => Some (c, u)
                 | _ => None
                 end) l.

(** The targets of the requests controller [c] has made. *)
Definition sent (c : nat) (l : list Effect) : list string :=
  snd <$> filter (fun p => fst p = c) (fetch_log l).

(** Two worlds with the same controller, the same aborted signals and the
    same mounting. *)
Definition same_control (w w' : World) : Prop :=
  controller w' = controller w /\ aborted w' = aborted w /\ mounted w' = mounted w.

(** How one code segment can change the suspended chains, the controllers
    and the requests made: not at all; by moving a chain to another [await]
    of the same attempt; by ending a chain; by the next attempt of a chain
    that was in its back-off; by aborting the current controller and
    starting a new one with its first attempt, for a cursor that satisfies
    [P]; by aborting the current controller for good. *)
Inductive core_move (P : option string -> Prop) (w w' : World) : Prop :=
| move_quiet :
    calls w' = calls w ->
    same_control w w' ->
    fetch_log (log w') = fetch_log (log w) ->
    core_move P w w'
| move_await (c : nat) (k : Call) (a : Await) :
    calls w !! c = Some k ->
    (a = AwaitDelay -> attempts k < MAX_RETRIES) ->
    calls w' = <[c := {| cursor := cursor k; attempts := attempts k;
                         awaiting := a |}]> (calls w) ->
    same_control w w' ->
    fetch_log (log w') = fetch_log (log w) ->
    core_move P w w'
| move_finish (c : nat) :
    calls w' = delete c (calls w) ->
    same_control w w' ->
    fetch_log (log w') = fetch_log (log w) ->
    core_move P w w'
| move_retry (c : nat) (k : Call) :
    calls w !! c = Some k ->
    awaiting k = AwaitDelay ->
    calls w' = <[c := {| cursor := cursor k; attempts := attempts k + 1;
                         awaiting := AwaitFetch |}]> (calls w) ->
    same_control w w' ->
    fetch_log (log w') = fetch_log (log w) ++ [(c, request_url (cursor k))] ->
    core_move P w w'
| move_start (page : option string) :
    P page ->
    mounted w = true ->
    mounted w' = true ->
    aborted w' = controller w :: aborted w ->
    controller w' = S (controller w) ->
    calls w' = <[S (controller w) := {| cursor := page; attempts := 0;
                                        awaiting := AwaitFetch |}]> (calls w) ->
    fetch_log (log w') = fetch_log (log w) ++ [(S (controller w), request_url page)] ->
    core_move P w w'
| move_unmount :
    mounted w = true ->
    mounted w' = false ->
    aborted w' = controller w :: aborted w ->
    controller w' = controller w ->
    calls w' = calls w ->
    fetch_log (log w') = fetch_log (log w) ->
    core_move P w w'.

(** The bound on the retries, controller by controller: a suspended chain
    at attempt number [a] has made [a + 1] requests, all to the target of
    its cursor, and [a] is at most [MAX_RETRIES], less while it is in its
    back-off; a controller without a chain has made at most four requests,
    all to one target; a controller that does not exist yet has made none. *)
Definition bounded (w : World) : Prop :=
  forall c,
    (exists u n, sent c (log w) = replicate n u /\ (n <= 4)%nat) /\
    (forall k, calls w !! c = Some k ->
       0 <= attempts k <= MAX_RETRIES /\
       (awaiting k = AwaitDelay -> attempts k < MAX_RETRIES) /\
       (c <= controller w)%nat /\
       sent c (log w) = replicate (S (Z.to_nat (attempts k))) (request_url (cursor k))) /\
    ((controller w < c)%nat -> calls w !! c = None /\ sent c (log w) = []).

(** The cursors a [setPage] event can start a sequence for. *)
Definition started_by (e : Event) (p : option string) : Prop :=
  exists s, e = SetPage (Some s) /\ s <> "" /\ p = Some s.

(** The aborted signals are those of the controllers that have been
    superseded, and that of the current one once the component is
    unmounted. *)
Definition supersession (w : World) : Prop :=
  forall c, c ∈ aborted w <->
            ((c < controller w)%nat \/ (c = controller w /\ mounted w = false)).

(** The cursors a consumer can have asked for with the events [es]: none,
    or a non-empty token passed to [setPage]. *)
Definition given (es : list Event) (p : option string) : Prop :=
  p = None \/ exists s, p = Some s /\ s <> "" /\ In (SetPage (Some s)) es.

(** Every suspended chain and every request made is for a cursor that
    satisfies [A]. *)
Definition targets_ok (A : option string -> Prop) (w : World) : Prop :=
  (forall c k, calls w !! c = Some k -> A (cursor k)) /\
  (forall c u, (c, u) ∈ fetch_log (log w) -> exists p, A p /\ u = request_url p).

(** While [loading] is true for a mounted component, some chain of
    [fetchData] has yet to run its [finally]. *)
Definition loading_has_cause (w : World) : Prop :=
  mounted w = true -> loading (hook w) = true -> calls w <> ∅.

(** No timer is overdue. *)
Definition timers_nonneg (w : World) : Prop :=
  forall t, t ∈ timers w -> 0 <= remaining t.

(** An error on display has its timer, with at most 3000 ms to go. *)
Definition error_has_timer (w : World) : Prop :=
  mounted w = true -> truthy (error (hook w)) = true ->
  exists r, dismissals w = [r] /\ r <= 3000.

(** * The component that uses the hook *)

(** What [useCharacters] returns, hooks.ts lines 90-100; [setPage] is the
    event [SetPage]. *)
Record PagesView := {
  pv_previous : option string;
  pv_current : option string;
  pv_next : option string
}.

Record HookResult := {
  r_error : option string;
  r_loading : bool;
  r_characters : list StarWarsCharacter;
  r_pages : PagesView
}.

Definition useCharacters (h : Hook) : HookResult :=
  {| r_error := error h;
     r_loading := loading h;
     r_characters := characters h;
     r_pages := {| pv_previous := previous (pages h);
                   pv_current := currentPage h;
                   pv_next := next (pages h) |} |}.

(** What [Characters] renders (Characters.tsx): the loading notice, or the
    error banner, one list item per character with its React key and its
    text, and the two buttons with their [disabled] attribute and the
    argument their [onClick] passes to [setPage]. *)
Record Button := {
  disabled : bool;
  onClick : option string
}.

Record ListItem := {
  item_key : string;
  item_text : string;
  item_selects : StarWarsCharacter
}.

Inductive View :=
| Loading
| Page (banner : option string) (items : list ListItem) (prev next : Button).

Definition Characters (r : HookResult) : View :=
  if r_loading r then Loading
  else
    Page (if truthy (r_error r) then r_error r else None)
      ((fun ch => {| item_key := url ch; item_text := name ch; item_selects := ch |})
         <$> r_characters r)
      {| disabled := negb (truthy (pv_previous (r_pages r))) || r_loading r;
         onClick := pv_previous (r_pages r) |}
      {| disabled := negb (truthy (pv_next (r_pages r))) || r_loading r;
         onClick := pv_next (r_pages r) |}.

(** What the mounted component of [w] shows. *)
Definition view (w : World) : View := Characters (useCharacters (hook w)).

Inductive Press := PressPrev | PressNext.

(** The link of the page on display a button stands for. *)
Definition link (b : Press) (w : World) : option string :=
  match b with
  | PressPrev => previous (pages (hook w))
  | PressNext => next (pages (hook w))
  end.

(** The user presses a button: nothing if the component is gone, shows the
    loading notice, or the button is disabled; its [onClick] otherwise. *)
Definition press (b : Press) (w : World) : World :=
  if mounted w then
    match view w with
    | Loading => w
    | Page _ _ prev next =>
        let btn := match b with PressPrev => prev | PressNext => next end in
        if disabled btn then w else step w (SetPage (onClick btn))
    end
  else w.

(** Every chain that is in its back-off has its timer, due within [d] ms. *)
Definition backoff_armed (d : Z) (w : World) : Prop :=
  forall c k, calls w !! c = Some k -> awaiting k = AwaitDelay ->
    exists t, t ∈ backoff_timers w /\ callback t = Backoff c /\ remaining t <= d.

(** * Properties *)

(** ** Rendering *)

Lemma commit_unchanged (prev : Hook) (w : World) :
  currentPage (hook w) = currentPage prev ->
  error (hook w) = error prev ->
  commit prev w = w.
Proof.
  intros Hpage Herr. unfold commit.
  destruct (mounted w); [|reflexivity].
  destruct (decide (currentPage (hook w) = currentPage prev)); [|contradiction].
  destruct (decide (error (hook w) = error prev)); [reflexivity|contradiction].
Qed.

Lemma handle_nothing (f : World -> World) (w : World) :
  f w = w -> handle f w = w.
Proof.
  intros Hf. unfold handle. rewrite Hf. now apply commit_unchanged.
Qed.

(** ** [setPage] with an absent token *)

(** C5: [setPage(null)] changes nothing: the cursor, the four dependent
    cells, the suspended calls, the timers and the log of network calls are
    those of before, so no fetch sequence starts. *)
Theorem setPage_null_noop (w : World) : step w (SetPage None) = w.
Proof.
  cbn [step]. apply handle_nothing. reflexivity.
Qed.

(** C9: the guard of [setPage] is a truthiness test, so the empty string,
    although a string, is treated like [null]: nothing changes and no fetch
    sequence starts. *)
Theorem setPage_empty_string_noop (w : World) : step w (SetPage (Some "")) = w.
Proof.
  cbn [step]. apply handle_nothing. reflexivity.
Qed.

(** ** The end of a chain *)

Lemma update_twice (f : Hook -> Hook) (w : World) :
  (forall h, f (f h) = f h) -> update f (update f w) = update f w.
Proof.
  intros Hf. unfold update. destruct w as [h [] ctl ab cs ts lg]; cbn; [|reflexivity].
  now rewrite Hf.
Qed.

Lemma iter_update (f : Hook -> Hook) (n : nat) (w : World) :
  (forall h, f (f h) = f h) -> Nat.iter (S n) (update f) w = update f w.
Proof.
  intros Hf. induction n as [|n IH]; [reflexivity|].
  change (Nat.iter (S (S n)) (update f) w) with (update f (Nat.iter (S n) (update f) w)).
  rewrite IH. now apply update_twice.
Qed.

Lemma finally_once (c : nat) (k : Call) (w : World) :
  finally_ c k w =
  with_calls (delete c (calls w)) (update (setLoading false) w).
Proof.
  unfold finally_. rewrite iter_update by reflexivity.
  destruct w as [h [] ctl ab cs ts lg]; reflexivity.
Qed.

Lemma requests_app (l1 l2 : list Effect) :
  requests (l1 ++ l2) = requests l1 ++ requests l2.
Proof. apply omap_app. Qed.

Lemma waits_app (l1 l2 : list Effect) :
  waits (l1 ++ l2) = waits l1 ++ waits l2.
Proof. apply omap_app. Qed.

(** The four ways out of the [catch] block. *)

Lemma catch_client (c : nat) (k : Call) (n m : string) (cause : option Z) (w : World) :
  String.eqb n "AbortError" = false ->
  client_error cause = true ->
  catch_ c k (JsError n m cause) w = finally_ c k (update (setError (Some m)) w).
Proof. intros Hn Hc. unfold catch_. now rewrite Hn, Hc. Qed.

Lemma catch_exhausted (c : nat) (k : Call) (n m : string) (cause : option Z) (w : World) :
  String.eqb n "AbortError" = false ->
  client_error cause = false ->
  MAX_RETRIES <= attempts k ->
  catch_ c k (JsError n m cause) w = finally_ c k (update (setError (Some m)) w).
Proof.
  intros Hn Hc Hk. unfold catch_. rewrite Hn, Hc. cbn [negb].
  now rewrite (proj2 (Z.leb_le _ _) Hk).
Qed.

Lemma catch_retry (c : nat) (k : Call) (n m : string) (cause : option Z) (w : World) :
  String.eqb n "AbortError" = false ->
  client_error cause = false ->
  attempts k < MAX_RETRIES ->
  catch_ c k (JsError n m cause) w =
  with_calls (<[c := {| cursor := cursor k; attempts := attempts k;
                        awaiting := AwaitDelay |}]> (calls w))
    (setTimeout (Backoff c) (backoff (attempts k)) w).
Proof.
  intros Hn Hc Hk. unfold catch_. rewrite Hn, Hc. cbn [negb].
  now rewrite (proj2 (Z.leb_gt _ _) Hk).
Qed.

Lemma catch_aborted (c : nat) (k : Call) (m : string) (cause : option Z) (w : World) :
  catch_ c k (JsError "AbortError" m cause) w = finally_ c k w.
Proof. reflexivity. Qed.

Lemma catch_not_an_error (c : nat) (k : Call) (w : World) :
  catch_ c k NotAnError w = finally_ c k w.
Proof. reflexivity. Qed.

(** ** The error effect touches nothing but its own timer *)

Lemma agree_refl (w : World) : agree w w.
Proof. now constructor. Qed.

Lemma dismissals_filter (ts : list Timer) :
  omap (fun t => match callback t with
                 | Dismiss => Some (remaining t)
                 | Backoff _ => None
                 end) (filter (fun t => callback t <> Dismiss) ts) = [].
Proof.
  induction ts as [|t ts IH]; [reflexivity|].
  rewrite filter_cons. destruct (decide (callback t <> Dismiss)) as [Hk|Hk]; [|exact IH].
  cbn [omap list_omap]. destruct (callback t); [contradiction|exact IH].
Qed.

Lemma filter_filter_same {A} (P : A -> Prop) `{forall x, Decision (P x)} (l : list A) :
  filter P (filter P l) = filter P l.
Proof.
  induction l as [|x l IH]; [reflexivity|].
  rewrite filter_cons. destruct (decide (P x)) as [Hx|Hx]; [|exact IH].
  rewrite filter_cons, decide_True by exact Hx. now rewrite IH.
Qed.

Lemma error_effect_agree (w : World) : agree w (error_effect (error_cleanup w)).
Proof.
  unfold error_effect, error_cleanup.
  destruct w as [h mt ctl ab cs ts lg]. cbn.
  destruct (truthy (error h)); constructor; cbn; try reflexivity.
  - rewrite requests_app. cbn. apply app_nil_r.
  - rewrite waits_app. cbn. apply app_nil_r.
  - unfold backoff_timers. cbn. rewrite filter_app, filter_filter_same.
    cbn. apply app_nil_r.
  - unfold backoff_timers. cbn. apply filter_filter_same.
Qed.

Lemma error_effect_dismissals (w : World) :
  dismissals (error_effect (error_cleanup w)) =
  if truthy (error (hook w)) then [3000] else [].
Proof.
  unfold error_effect, error_cleanup, dismissals.
  destruct w as [h mt ctl ab cs ts lg]. cbn.
  destruct (truthy (error h)); cbn.
  - rewrite omap_app, dismissals_filter. reflexivity.
  - apply dismissals_filter.
Qed.

(** A render in which [currentPage] is the one of the previous render. *)
Lemma commit_same_page (prev : Hook) (w : World) :
  mounted w = true ->
  currentPage (hook w) = currentPage prev ->
  commit prev w =
  if decide (error (hook w) = error prev) then w
  else error_effect (error_cleanup w).
Proof.
  intros Hm Hp. unfold commit. rewrite Hm.
  destruct (decide (currentPage (hook w) = currentPage prev)); [reflexivity|contradiction].
Qed.

Lemma commit_agree (prev : Hook) (w : World) :
  currentPage (hook w) = currentPage prev -> agree w (commit prev w).
Proof.
  intros Hp. destruct (mounted w) eqn:Hm.
  - rewrite commit_same_page by assumption.
    destruct (decide (error (hook w) = error prev));
      [apply agree_refl|apply error_effect_agree].
  - unfold commit. rewrite Hm. apply agree_refl.
Qed.

Lemma commit_dismissals (prev : Hook) (w : World) :
  mounted w = true ->
  currentPage (hook w) = currentPage prev ->
  dismissals (commit prev w) =
  if decide (error (hook w) = error prev) then dismissals w
  else if truthy (error (hook w)) then [3000] else [].
Proof.
  intros Hm Hp. rewrite commit_same_page by assumption.
  destruct (decide (error (hook w) = error prev)); [reflexivity|].
  apply error_effect_dismissals.
Qed.

(** ** Failures of an attempt *)

Lemma fetch_settled_failure (c : nat) (k : Call) (r : Settled Response)
    (err : Thrown) (w : World) :
  failure_of r = Some err -> fetch_settled c k r w = catch_ c k err w.
Proof.
  destruct r as [resp|t]; cbn.
  - destruct (ok resp); [discriminate|]. now intros [= <-].
  - now intros [= <-].
Qed.

Lemma step_fails (w : World) (c : nat) (k : Call) (e : Event) (err : Thrown) :
  calls w !! c = Some k ->
  fails_with c k e err ->
  step w e = handle (catch_ c k err) w.
Proof.
  intros Hc [r err' Hk Hr|err' Hk]; cbn [step]; rewrite Hc, Hk; unfold handle.
  - now rewrite (fetch_settled_failure c k r err' w Hr).
  - reflexivity.
Qed.

Lemma not_ok_client (r : Response) : 400 <= status r < 500 -> ok r = false.
Proof.
  intros Hr. unfold ok. apply andb_false_iff. right. apply Z.leb_gt. lia.
Qed.

Lemma client_error_range (s : Z) : 400 <= s < 500 -> client_error (Some s) = true.
Proof.
  intros Hs. cbn. apply andb_true_iff. split; [apply Z.leb_le|apply Z.ltb_lt]; lia.
Qed.

(** What an event changes when [currentPage] stays: the handler decides
    everything but the auto-dismiss timer. *)
Lemma handle_agree (f : World -> World) (w : World) :
  currentPage (hook (f w)) = currentPage (hook w) -> agree (f w) (handle f w).
Proof. intros Hp. now apply commit_agree. Qed.

Lemma finally_page (c : nat) (k : Call) (w : World) :
  currentPage (hook (finally_ c k w)) = currentPage (hook w).
Proof. rewrite finally_once. destruct w as [h [] ? ? ? ? ?]; reflexivity. Qed.

Lemma update_page (f : Hook -> Hook) (w : World) :
  (forall h, currentPage (f h) = currentPage h) ->
  currentPage (hook (update f w)) = currentPage (hook w).
Proof. intros Hf. destruct w as [h [] ? ? ? ? ?]; cbn; [apply Hf|reflexivity]. Qed.

Lemma catch_page (c : nat) (k : Call) (err : Thrown) (w : World) :
  currentPage (hook (catch_ c k err w)) = currentPage (hook w).
Proof.
  unfold catch_. destruct err as [n m cause|]; [|apply finally_page].
  destruct (negb _); [|apply finally_page].
  destruct (client_error cause); [|destruct (_ <=? _)];
    try (rewrite finally_page; now apply update_page).
  reflexivity.
Qed.

Lemma fetch_settled_page (c : nat) (k : Call) (r : Settled Response) (w : World) :
  currentPage (hook (fetch_settled c k r w)) = currentPage (hook w).
Proof.
  destruct r as [resp|err]; unfold fetch_settled; [|apply catch_page].
  destruct (ok resp); [reflexivity|apply catch_page].
Qed.

Lemma json_settled_page (c : nat) (k : Call) (r : Settled StarWarsApiResponse)
    (w : World) :
  currentPage (hook (json_settled c k r w)) = currentPage (hook w).
Proof.
  destruct r as [data|err]; unfold json_settled; [|apply catch_page].
  rewrite finally_page. rewrite !update_page; reflexivity.
Qed.

Lemma fetchData_enter_page (c : nat) (page : option string) (n : Z) (w : World) :
  currentPage (hook (fetchData_enter c page n w)) = currentPage (hook w).
Proof. destruct w as [h [] ? ? ? ? ?]; reflexivity. Qed.

(** ** The start of a fetch sequence *)

Lemma truthy_nonempty (s : string) : s <> "" -> truthy (Some s) = true.
Proof. intros Hs. cbn. now rewrite (proj2 (String.eqb_neq _ _) Hs). Qed.

Lemma request_url_some (s : string) : s <> "" -> request_url (Some s) = s.
Proof. intros Hs. unfold request_url. now rewrite truthy_nonempty. Qed.

(** What [setPage] does with a token that is present and is not the cursor. *)
Lemma setPage_changes_cursor (w0 : World) (page : string) :
  mounted w0 = true ->
  page <> "" ->
  currentPage (hook w0) <> Some page ->
  let c := S (controller w0) in
  let w := step w0 (SetPage (Some page)) in
  hook w = setError None (setLoading true (setCurrentPage (Some page) (hook w0))) /\
  mounted w = true /\
  controller w = c /\
  aborted w = controller w0 :: aborted w0 /\
  calls w = <[c := {| cursor := Some page; attempts := 0; awaiting := AwaitFetch |}]>
              (calls w0) /\
  log w = log w0 ++ [EAbort (controller w0); EFetch c page] /\
  backoff_timers w = backoff_timers w0 /\
  dismissals w = (if decide (error (hook w0) = None) then dismissals w0 else []).
Proof.
  intros Hm Hne Hp c w. subst c w. cbn [step]. unfold handle, setPage.
  rewrite truthy_nonempty by exact Hne. cbn [negb].
  unfold commit. world w0. wsimpl.
  destruct (decide (Some page = currentPage h)) as [Heq|_]; [now symmetry in Heq|].
  unfold backoff_timers, dismissals. wsimpl.
  destruct (decide (None = error h)) as [Hn|Hn].
  - rewrite decide_True by easy. wsimpl.
    rewrite (request_url_some page Hne), <- !app_assoc. easy.
  - rewrite decide_False by easy. unfold error_effect. wsimpl. cbn [truthy]. wsimpl.
    rewrite (request_url_some page Hne), <- !app_assoc.
    repeat split. apply filter_filter_same. apply dismissals_filter.
Qed.

Lemma sequence_start_facts (w : World) (c : nat) (u : string) (l : list Effect) :
  sequence_start w c u l ->
  mounted w = true /\
  controller w = c /\
  (exists page, request_url page = u /\
     calls w !! c = Some {| cursor := page; attempts := 0; awaiting := AwaitFetch |}) /\
  log w = l ++ [EFetch c u] /\
  loading (hook w) = true /\
  error (hook w) = None.
Proof.
  intros [|w0 page Hm Hne Hp].
  - repeat split. exists None. split; reflexivity.
  - destruct (setPage_changes_cursor w0 page Hm Hne Hp)
      as (Hh & Hm' & Hc & _ & Hcs & Hl & _).
    rewrite Hh, Hm', Hc, Hcs, Hl. repeat split.
    + exists (Some page). split.
      * now apply request_url_some.
      * apply lookup_insert_eq.
    + now rewrite <- app_assoc.
Qed.

(** *** A permanent failure *)

(** An attempt answered with a status in [[400, 500)] ends the chain,
    whichever attempt it is. *)
Lemma client_error_terminal (w : World) (c : nat) (k : Call) (r : Response) :
  mounted w = true ->
  calls w !! c = Some k ->
  awaiting k = AwaitFetch ->
  400 <= status r < 500 ->
  let w' := step w (FetchSettled c (Fulfilled r)) in
  error (hook w') = Some (show (status r) +:+ ": " +:+ statusText r) /\
  loading (hook w') = false /\
  calls w' !! c = None /\
  requests (log w') = requests (log w) /\
  waits (log w') = waits (log w) /\
  backoff_timers w' = backoff_timers w.
Proof.
  intros Hm Hc Hk Hr w'. subst w'. cbn [step]. rewrite Hc, Hk.
  destruct (handle_agree (fetch_settled c k (Fulfilled r)) w
              (fetch_settled_page _ _ _ _)) as [-> _ _ _ -> -> -> ->].
  cbn [fetch_settled]. rewrite not_ok_client by exact Hr.
  unfold httpError. rewrite catch_client by (try reflexivity; now apply client_error_range).
  rewrite finally_once. world w. wsimpl.
  repeat split. apply lookup_delete_eq.
Qed.

(** C3: when the attempt of a fetch sequence is answered with a status in
    [[400, 500)], for instance 404, the controller sets [error] to the
    message ["<status>: <status text>"] and [loading] to false after that one
    attempt: the chain is finished, the log holds the one request of the
    sequence and no other, and no back-off wait is started. *)
Theorem client_error_no_retry (w : World) (c : nat) (u : string)
    (l : list Effect) (r : Response) :
  sequence_start w c u l ->
  400 <= status r < 500 ->
  let w' := step w (FetchSettled c (Fulfilled r)) in
  error (hook w') = Some (show (status r) +:+ ": " +:+ statusText r) /\
  loading (hook w') = false /\
  calls w' !! c = None /\
  requests (log w') = requests l ++ [u] /\
  waits (log w') = waits l /\
  backoff_timers w' = backoff_timers w.
Proof.
  intros Hs Hr w'.
  destruct (sequence_start_facts _ _ _ _ Hs)
    as (Hm & _ & (page & _ & Hc) & Hl & _).
  destruct (client_error_terminal w c _ r Hm Hc eq_refl Hr)
    as (He & Hld & Hcs & Hrq & Hw & Hb).
  fold w' in He, Hld, Hcs, Hrq, Hw, Hb.
  rewrite Hl, requests_app in Hrq. rewrite Hl, waits_app in Hw.
  cbn in Hrq, Hw. rewrite app_nil_r in Hw. easy.
Qed.

Lemma client_error_no_retry_witness :
  let w' := step mount (FetchSettled 0%nat
                          (Fulfilled {| status := 404; statusText := "Not Found" |})) in
  error (hook w') = Some "404: Not Found" /\
  loading (hook w') = false /\
  calls w' !! 0%nat = None /\
  requests (log w') = [default_url] /\
  waits (log w') = [] /\
  backoff_timers w' = [].
Proof.
  apply (client_error_no_retry mount 0%nat default_url []
           {| status := 404; statusText := "Not Found" |}).
  - apply start_on_mount.
  - cbn. lia.
Defined.

(** *** A thrown value that is not an [Error] *)

(** C10: when the pending promise of an attempt rejects with a value that is
    not an [Error] instance, the [catch] block does nothing: [error] keeps
    the value it had (the [null] set when the attempt started), no retry is
    scheduled and no request is made, the timers are those of before, and
    [finally] sets [loading] to false and ends the chain. *)
Theorem non_error_swallowed (w : World) (c : nat) (k : Call) (e : Event) :
  mounted w = true ->
  calls w !! c = Some k ->
  fails_with c k e NotAnError ->
  let w' := step w e in
  error (hook w') = error (hook w) /\
  loading (hook w') = false /\
  calls w' !! c = None /\
  requests (log w') = requests (log w) /\
  waits (log w') = waits (log w) /\
  timers w' = timers w.
Proof.
  intros Hm Hc He w'. subst w'. rewrite (step_fails w c k e _ Hc He).
  unfold handle. rewrite catch_not_an_error, finally_once.
  rewrite commit_unchanged; world w; wsimpl; try reflexivity.
  repeat split. apply lookup_delete_eq.
Qed.

Lemma non_error_swallowed_witness :
  let w' := step mount (FetchSettled 0%nat (Rejected NotAnError)) in
  error (hook w') = None /\
  loading (hook w') = false /\
  calls w' !! 0%nat = None /\
  requests (log w') = [default_url] /\
  waits (log w') = [] /\
  timers w' = [].
Proof.
  apply (non_error_swallowed mount 0%nat
           {| cursor := None; attempts := 0; awaiting := AwaitFetch |}
           (FetchSettled 0%nat (Rejected NotAnError))).
  - reflexivity.
  - reflexivity.
  - apply fetch_fails; reflexivity.
Defined.

(** ** The page on display *)

Lemma keeps_setLoading (b : bool) : keeps_page (setLoading b).
Proof. now intros h. Qed.

Lemma keeps_setError (e : option string) : keeps_page (setError e).
Proof. now intros h. Qed.

Lemma keeps_setCurrentPage (p : option string) : keeps_page (setCurrentPage p).
Proof. now intros h. Qed.

Create HintDb shown.

#[local] Hint Resolve keeps_setLoading keeps_setError keeps_setCurrentPage : shown.

Lemma shown_update (f : Hook -> Hook) (w : World) :
  keeps_page f -> shown (update f w) = shown w.
Proof.
  intros Hf. unfold shown. destruct w as [h [] ? ? ? ? ?]; cbn; [|reflexivity].
  now destruct (Hf h) as [-> ->].
Qed.

Lemma shown_finally (c : nat) (k : Call) (w : World) :
  shown (finally_ c k w) = shown w.
Proof.
  rewrite finally_once.
  change (shown (with_calls ?m ?v)) with (shown v).
  auto using shown_update with shown.
Qed.

Lemma shown_catch (c : nat) (k : Call) (err : Thrown) (w : World) :
  shown (catch_ c k err w) = shown w.
Proof.
  unfold catch_. destruct err as [n m cause|]; [|apply shown_finally].
  destruct (negb _); [|apply shown_finally].
  destruct (client_error cause); [|destruct (_ <=? _)];
    try (rewrite shown_finally; auto using shown_update with shown).
  reflexivity.
Qed.

Lemma shown_fetchData_enter (c : nat) (page : option string) (n : Z) (w : World) :
  shown (fetchData_enter c page n w) = shown w.
Proof. destruct w as [h [] ? ? ? ? ?]; reflexivity. Qed.

Lemma shown_error_effect (w : World) : shown (error_effect (error_cleanup w)) = shown w.
Proof. unfold shown. now rewrite (agree_hook _ _ (error_effect_agree w)). Qed.

Lemma shown_commit (prev : Hook) (w : World) : shown (commit prev w) = shown w.
Proof.
  unfold commit. destruct (mounted w); [|reflexivity].
  destruct (decide (currentPage (hook w) = currentPage prev)).
  - destruct (decide _); [reflexivity|apply shown_error_effect].
  - assert (shown (fetch_effect (fetch_cleanup w)) = shown w) as Hf.
    { unfold fetch_effect. now rewrite shown_fetchData_enter. }
    destruct (decide _); [exact Hf|]. now rewrite shown_error_effect.
Qed.

Lemma shown_handle (f : World -> World) (w : World) :
  shown (handle f w) = shown (f w).
Proof. apply shown_commit. Qed.

Lemma shown_fire (k : TimerKind) (w : World) : shown (fire k w) = shown w.
Proof.
  destruct k as [|c]; cbn [fire].
  - rewrite shown_handle. auto using shown_update with shown.
  - destruct (calls w !! c) as [call|]; [|reflexivity].
    destruct (awaiting call); try reflexivity.
    rewrite shown_handle. apply shown_fetchData_enter.
Qed.

Lemma shown_elapse (fuel : nat) (dt : Z) (w : World) :
  shown (elapse fuel dt w) = shown w.
Proof.
  revert dt w. induction fuel as [|n IH]; intros dt w; [reflexivity|].
  cbn [elapse]. destruct (due dt (timers w)) as [t|]; [|reflexivity].
  now rewrite IH, shown_fire.
Qed.

(** Every event leaves the items and the page links alone, except a decoded
    response, which replaces both. *)
Lemma step_shown (w : World) (e : Event) :
  shown (step w e) = shown w \/
  exists c data, e = JsonSettled c (Fulfilled data) /\ shown (step w e) = page_of data.
Proof.
  destruct e as [page|c r|c r|dt|]; cbn [step].
  - left. rewrite shown_handle. unfold setPage.
    destruct (negb _); auto using shown_update with shown.
  - left. destruct (calls w !! c) as [k|]; [|reflexivity].
    destruct (awaiting k); try reflexivity.
    rewrite shown_handle. destruct r as [resp|err]; unfold fetch_settled;
      [destruct (ok resp); [reflexivity|]|]; apply shown_catch.
  - destruct (calls w !! c) as [k|]; [|now left].
    destruct (awaiting k); try now left.
    rewrite shown_handle. destruct r as [data|err]; unfold json_settled.
    + destruct (mounted w) eqn:Hm.
      * right. exists c, data. split; [reflexivity|].
        rewrite shown_finally. world w. reflexivity.
      * left. rewrite shown_finally. world w. reflexivity.
    + left. apply shown_catch.
  - left. destruct (0 <=? dt); [apply shown_elapse|reflexivity].
  - left. unfold unmount. destruct (mounted w); reflexivity.
Qed.

Lemma run_shown (es : list Event) (w : World) :
  shown (run es w) = shown w \/
  exists c data, In (JsonSettled c (Fulfilled data)) es /\
                 shown (run es w) = page_of data.
Proof.
  revert w. induction es as [|e es IH]; intros w; [now left|].
  change (run (e :: es) w) with (run es (step w e)).
  destruct (IH (step w e)) as [Hs|(c & data & Hin & Hs)].
  - destruct (step_shown w e) as [He|(c & data & -> & He)].
    + left. congruence.
    + right. exists c, data. split; [now left|congruence].
  - right. exists c, data. split; [now right|exact Hs].
Qed.

(** C4: when the body of a successful response is decoded, the items become
    exactly its [results] and the page links its [previous] and [next],
    [loading] is cleared and [error] is left as it is; whatever happens
    afterwards, the items and the page links on display are still those of
    this response or are, both, those of one later decoded response. *)
Theorem success_replaces_page (w : World) (c : nat) (k : Call)
    (data : StarWarsApiResponse) :
  mounted w = true ->
  calls w !! c = Some k ->
  awaiting k = AwaitJson ->
  let w' := step w (JsonSettled c (Fulfilled data)) in
  characters (hook w') = results data /\
  previous (pages (hook w')) = data_previous data /\
  next (pages (hook w')) = data_next data /\
  loading (hook w') = false /\
  error (hook w') = error (hook w) /\
  calls w' !! c = None /\
  forall es,
    shown (run es w') = page_of data \/
    exists c' data', In (JsonSettled c' (Fulfilled data')) es /\
                     shown (run es w') = page_of data'.
Proof.
  intros Hm Hc Hk w'.
  assert (w' = finally_ c k
                 (update (setCharacters (results data))
                    (update (setPages {| previous := data_previous data;
                                         next := data_next data |}) w))) as Hw.
  { subst w'. cbn [step]. rewrite Hc, Hk. unfold handle, json_settled.
    apply commit_unchanged; rewrite finally_once; world w; reflexivity. }
  assert (shown w' = page_of data) as Hs.
  { rewrite Hw, shown_finally. world w. reflexivity. }
  clearbody w'.
  refine (conj _ (conj _ (conj _ (conj _ (conj _ (conj _ _)))))).
  1-6: subst w'; rewrite finally_once; world w; wsimpl; try reflexivity.
  - apply lookup_delete_eq.
  - intros es. rewrite <- Hs. apply run_shown.
Qed.

Lemma success_replaces_page_witness :
  let luke := {| url := "u1"; name := "Luke"; height := "172";
                 birth_year := "19BBY"; eye_color := "blue" |} in
  let data := {| data_previous := None; data_next := Some "p2"; results := [luke] |} in
  let w := step mount (FetchSettled 0%nat (Fulfilled {| status := 200; statusText := "OK" |})) in
  let w' := step w (JsonSettled 0%nat (Fulfilled data)) in
  characters (hook w') = [luke] /\
  previous (pages (hook w')) = None /\
  next (pages (hook w')) = Some "p2" /\
  loading (hook w') = false /\
  error (hook w') = None /\
  calls w' !! 0%nat = None /\
  forall es,
    shown (run es w') = page_of data \/
    exists c' data', In (JsonSettled c' (Fulfilled data')) es /\
                     shown (run es w') = page_of data'.
Proof.
  intros luke data w.
  apply (success_replaces_page w 0%nat
           {| cursor := None; attempts := 0; awaiting := AwaitJson |} data);
    reflexivity.
Defined.

(** ** Retrying *)

Lemma commit_no_timers (prev : Hook) (w : World) :
  currentPage (hook w) = currentPage prev ->
  truthy (error (hook w)) = false ->
  timers w = [] ->
  commit prev w = w.
Proof.
  intros Hp He Ht. destruct (mounted w) eqn:Hm.
  - rewrite commit_same_page by assumption.
    destruct (decide _); [reflexivity|].
    unfold error_effect. world w.
    change (truthy (error (hook (error_cleanup ?v)))) with (truthy (error (hook v))).
    cbn [hook]. rewrite He. reflexivity.
  - unfold commit. now rewrite Hm.
Qed.

Lemma backoff_values (n : Z) :
  0 <= n < MAX_RETRIES ->
  (n = 0 /\ backoff n = 1000) \/ (n = 1 /\ backoff n = 2000) \/
  (n = 2 /\ backoff n = 4000).
Proof.
  unfold MAX_RETRIES. intros Hn.
  assert (n = 0 \/ n = 1 \/ n = 2) as [->|[->| ->]] by lia; auto.
Qed.

Lemma backoff_pos (n : Z) : 0 <= n < MAX_RETRIES -> 0 < backoff n.
Proof. intros Hn. destruct (backoff_values n Hn) as [[_ ->]|[[_ ->]|[_ ->]]]; lia. Qed.

(** A transient failure before the retries are used up arms the back-off
    timer and nothing else. *)
Lemma transient_failure (w : World) (c : nat) (k : Call) (e : Event)
    (err : Thrown) :
  calls w !! c = Some k ->
  fails_with c k e err ->
  transient err = true ->
  attempts k < MAX_RETRIES ->
  step w e =
  with_calls (<[c := {| cursor := cursor k; attempts := attempts k;
                        awaiting := AwaitDelay |}]> (calls w))
    (setTimeout (Backoff c) (backoff (attempts k)) w).
Proof.
  intros Hc He Ht Hn. rewrite (step_fails w c k e err Hc He). unfold handle.
  destruct err as [n m cause|]; [|discriminate].
  cbn [transient] in Ht. apply andb_true_iff in Ht as [Hab Hcl].
  apply negb_true_iff in Hab, Hcl.
  rewrite catch_retry by assumption.
  apply commit_unchanged; reflexivity.
Qed.

(** While the back-off timer is the only one and has not expired, time
    passes and nothing else happens. *)
Lemma elapse_before (w : World) (t : Timer) (dt : Z) :
  timers w = [t] ->
  0 <= dt < remaining t ->
  step w (Elapse dt) =
  with_timers [{| remaining := remaining t - dt; callback := callback t |}] w.
Proof.
  intros Ht Hdt. cbn [step]. rewrite (proj2 (Z.leb_le 0 dt)) by lia.
  rewrite Ht. cbn [length elapse]. unfold due. rewrite Ht. cbn [earliest].
  rewrite (proj2 (Z.leb_gt _ _)) by lia.
  unfold age. now rewrite Ht.
Qed.

(** When the back-off timer expires, [fetchData(attempts + 1)] runs. *)
Lemma elapse_backoff (w : World) (c : nat) (k : Call) (d : Z) :
  mounted w = true ->
  0 <= d ->
  timers w = [{| remaining := d; callback := Backoff c |}] ->
  calls w !! c = Some k ->
  awaiting k = AwaitDelay ->
  step w (Elapse d) =
  fetchData_enter c (cursor k) (attempts k + 1) (with_timers [] w).
Proof.
  intros Hm Hd Ht Hc Hk. cbn [step]. rewrite (proj2 (Z.leb_le 0 d)) by lia.
  rewrite Ht. cbn [length elapse]. unfold due. rewrite Ht. cbn [earliest remaining].
  rewrite Z.leb_refl. cbn [callback remaining].
  assert (clearTimeout (Backoff c) (age d w) = with_timers [] w) as ->.
  { unfold clearTimeout, age. rewrite Ht. world w. cbn.
    rewrite decide_False by (intros H; now apply H). reflexivity. }
  cbn [fire]. change (calls (with_timers [] w)) with (calls w). rewrite Hc, Hk.
  unfold handle, delay_elapsed.
  rewrite commit_no_timers.
  - world w. reflexivity.
  - apply fetchData_enter_page.
  - world w. reflexivity.
  - world w. reflexivity.
Qed.

Lemma fetchData_enter_facts (c : nat) (page : option string) (n : Z) (w : World) :
  mounted w = true ->
  let w' := fetchData_enter c page n w in
  mounted w' = true /\
  timers w' = timers w /\
  calls w' !! c = Some {| cursor := page; attempts := n; awaiting := AwaitFetch |} /\
  log w' = log w ++ [EFetch c (request_url page)] /\
  hook w' = setError None (setLoading true (hook w)).
Proof.
  intros Hm. world w. wsimpl. repeat split. apply lookup_insert_eq.
Qed.

(** One round of the retry loop: a transient failure, the back-off wait, the
    next attempt. *)
Lemma retry_cycle (w : World) (c : nat) (k : Call) (r : Settled Response)
    (err : Thrown) :
  mounted w = true ->
  calls w !! c = Some k ->
  awaiting k = AwaitFetch ->
  timers w = [] ->
  failure_of r = Some err ->
  transient err = true ->
  0 <= attempts k < MAX_RETRIES ->
  run [FetchSettled c r; Elapse (backoff (attempts k))] w =
  fetchData_enter c (cursor k) (attempts k + 1)
    (emit (ESetTimeout (Backoff c) (backoff (attempts k))) w).
Proof.
  intros Hm Hc Hk Ht Hr Htr Hn. cbn [run fold_left].
  rewrite (transient_failure w c k (FetchSettled c r) err)
    by (try assumption; try lia; now constructor).
  pose proof (backoff_pos _ Hn) as Hpos.
  rewrite (elapse_backoff _ c {| cursor := cursor k; attempts := attempts k;
                                 awaiting := AwaitDelay |} (backoff (attempts k))).
  - world w. unfold fetchData_enter. wsimpl. cbn [cursor attempts].
    now rewrite insert_insert_eq.
  - exact Hm.
  - lia.
  - world w. reflexivity.
  - apply lookup_insert_eq.
  - reflexivity.
Qed.

(** A transient failure once the retries are used up is surfaced. *)
Lemma exhausted_failure (w : World) (c : nat) (k : Call) (e : Event)
    (n m : string) (cause : option Z) :
  mounted w = true ->
  calls w !! c = Some k ->
  fails_with c k e (JsError n m cause) ->
  transient (JsError n m cause) = true ->
  MAX_RETRIES <= attempts k ->
  let w' := step w e in
  error (hook w') = Some m /\
  loading (hook w') = false /\
  calls w' !! c = None /\
  requests (log w') = requests (log w) /\
  waits (log w') = waits (log w) /\
  backoff_timers w' = backoff_timers w /\
  dismissals w' =
    (if decide (Some m = error (hook w)) then dismissals w
     else if truthy (Some m) then [3000] else []).
Proof.
  intros Hm Hc He Ht Hn w'. subst w'. rewrite (step_fails w c k e _ Hc He).
  cbn [transient] in Ht. apply andb_true_iff in Ht as [Hab Hcl].
  apply negb_true_iff in Hab, Hcl.
  set (f := catch_ c k (JsError n m cause)).
  assert (f w = with_calls (delete c (calls w))
                  (update (setLoading false) (update (setError (Some m)) w))) as Hw.
  { unfold f. rewrite catch_exhausted by assumption. rewrite finally_once.
    world w. reflexivity. }
  assert (currentPage (hook (f w)) = currentPage (hook w)) as Hp by apply catch_page.
  refine (conj _ (conj _ (conj _ (conj _ (conj _ (conj _ _)))))).
  7: { unfold handle.
       rewrite commit_dismissals; [|rewrite Hw; world w; reflexivity|exact Hp].
       rewrite Hw. world w. reflexivity. }
  all: destruct (handle_agree f w Hp) as [A1 _ _ _ A2 A3 A4 A5].
  all: rewrite ?A1, ?A2, ?A3, ?A4, ?A5, Hw; world w; wsimpl; try reflexivity.
  apply lookup_delete_eq.
Qed.

Lemma failure_503 (txt : string) :
  failure_of (Fulfilled {| status := 503; statusText := txt |}) =
  Some (JsError "Error" ("503: " +:+ txt) (Some 503)).
Proof. reflexivity. Qed.

(** C1, as the code has it: when every attempt of a fetch sequence is
    answered with status 503, the controller makes four requests in total,
    the first and [MAX_RETRIES] = 3 retries, waiting 1000 ms, 2000 ms and
    4000 ms before the second, the third and the fourth; after the fourth
    failure it sets [error] to ["503: <status text>"], clears [loading], ends
    the chain and arms the auto-dismiss timer. *)
Theorem exhausted_after_three_retries (w : World) (c : nat) (u : string)
    (l : list Effect) (txt : string) :
  sequence_start w c u l ->
  timers w = [] ->
  let w' := run (always_503 c txt) w in
  requests (log w') = requests l ++ [u; u; u; u] /\
  waits (log w') = waits l ++ [1000; 2000; 4000] /\
  error (hook w') = Some ("503: " +:+ txt) /\
  loading (hook w') = false /\
  calls w' !! c = None /\
  backoff_timers w' = [] /\
  dismissals w' = [3000].
Proof.
  intros Hs Ht w'.
  destruct (sequence_start_facts _ _ _ _ Hs)
    as (Hm & _ & (page & Hu & Hc) & Hl & _ & _).
  set (r := Fulfilled {| status := 503; statusText := txt |}).
  set (w1 := fetchData_enter c page 1 (emit (ESetTimeout (Backoff c) 1000) w)).
  set (w2 := fetchData_enter c page 2 (emit (ESetTimeout (Backoff c) 2000) w1)).
  set (w3 := fetchData_enter c page 3 (emit (ESetTimeout (Backoff c) 4000) w2)).
  assert (run [FetchSettled c r; Elapse 1000] w = w1) as H1.
  { apply (retry_cycle w c _ r _ Hm Hc eq_refl Ht (failure_503 txt));
      [reflexivity|unfold MAX_RETRIES; cbn; lia]. }
  destruct (fetchData_enter_facts c page 1 (emit (ESetTimeout (Backoff c) 1000) w) Hm)
    as (Hm1 & Ht1 & Hc1 & Hl1 & _). fold w1 in Hm1, Ht1, Hc1, Hl1.
  assert (run [FetchSettled c r; Elapse 2000] w1 = w2) as H2.
  { apply (retry_cycle w1 c _ r (JsError "Error" ("503: " +:+ txt) (Some 503))
             Hm1 Hc1 eq_refl);
      [exact (eq_trans Ht1 Ht)|reflexivity|reflexivity|unfold MAX_RETRIES; cbn; lia]. }
  destruct (fetchData_enter_facts c page 2 (emit (ESetTimeout (Backoff c) 2000) w1) Hm1)
    as (Hm2 & Ht2 & Hc2 & Hl2 & _). fold w2 in Hm2, Ht2, Hc2, Hl2.
  assert (run [FetchSettled c r; Elapse 4000] w2 = w3) as H3.
  { apply (retry_cycle w2 c _ r (JsError "Error" ("503: " +:+ txt) (Some 503))
             Hm2 Hc2 eq_refl);
      [exact (eq_trans Ht2 (eq_trans Ht1 Ht))|reflexivity|reflexivity|unfold MAX_RETRIES; cbn; lia]. }
  destruct (fetchData_enter_facts c page 3 (emit (ESetTimeout (Backoff c) 4000) w2) Hm2)
    as (Hm3 & Ht3 & Hc3 & Hl3 & Hh3). fold w3 in Hm3, Ht3, Hc3, Hl3, Hh3.
  assert (w' = step w3 (FetchSettled c r)) as Hw'.
  { subst w'. unfold always_503. fold r.
    change (run [FetchSettled c r; Elapse 1000; FetchSettled c r; Elapse 2000;
                 FetchSettled c r; Elapse 4000; FetchSettled c r] w)
      with (step (run [FetchSettled c r; Elapse 4000]
                    (run [FetchSettled c r; Elapse 2000]
                       (run [FetchSettled c r; Elapse 1000] w)))
              (FetchSettled c r)).
    now rewrite H1, H2, H3. }
  clearbody w'. subst w'.
  destruct (exhausted_failure w3 c
              {| cursor := page; attempts := 3; awaiting := AwaitFetch |}
              (FetchSettled c r) "Error" ("503: " +:+ txt) (Some 503) Hm3 Hc3
              (fetch_fails c {| cursor := page; attempts := 3; awaiting := AwaitFetch |}
                 r (JsError "Error" ("503: " +:+ txt) (Some 503)) eq_refl eq_refl)
              eq_refl)
    as (He & Hld & Hcs & Hrq & Hws & Hb & Hd); [unfold MAX_RETRIES; cbn; lia|].
  rewrite He, Hld, Hcs, Hrq, Hws, Hb, Hd.
  rewrite Hh3. cbn [error setError]. rewrite decide_False by discriminate.
  unfold backoff_timers. rewrite Ht3. cbn [emit timers]. rewrite Ht2. cbn [emit timers].
  rewrite Ht1. cbn [emit timers]. rewrite Ht.
  rewrite Hl3. cbn [emit log]. rewrite Hl2. cbn [emit log]. rewrite Hl1.
  cbn [emit log]. rewrite Hl, Hu.
  rewrite !requests_app, !waits_app. cbn. rewrite <- !app_assoc. cbn.
  repeat split; reflexivity.
Qed.

Lemma exhausted_after_three_retries_witness :
  let w' := run (always_503 0%nat "Service Unavailable") mount in
  requests (log w') = [default_url; default_url; default_url; default_url] /\
  waits (log w') = [1000; 2000; 4000] /\
  error (hook w') = Some "503: Service Unavailable" /\
  loading (hook w') = false /\
  calls w' !! 0%nat = None /\
  backoff_timers w' = [] /\
  dismissals w' = [3000].
Proof.
  apply (exhausted_after_three_retries mount 0%nat default_url []
           "Service Unavailable").
  - apply start_on_mount.
  - reflexivity.
Defined.

(** C1, as the specification states it, fails: after three attempts
    answered with 503 and the waits of 1000 ms and 2000 ms, the controller
    has set no error and is still loading, a third back-off of 4000 ms is
    running, and the complete sequence makes four requests, not three. *)
Lemma three_attempts_do_not_settle :
  let answer := FetchSettled 0%nat
                  (Fulfilled {| status := 503; statusText := "Service Unavailable" |}) in
  let w3 := run [answer; Elapse 1000; answer; Elapse 2000; answer] mount in
  let w4 := run [Elapse 4000; answer] w3 in
  length (requests (log w3)) = 3%nat /\
  error (hook w3) = None /\
  loading (hook w3) = true /\
  timers w3 = [{| remaining := 4000; callback := Backoff 0 |}] /\
  length (requests (log w4)) = 4%nat /\
  length (requests (log w4)) <> 3%nat /\
  error (hook w4) = Some "503: Service Unavailable".
Proof. vm_compute. repeat split; discriminate. Qed.

(** C7: a transient failure at attempt number [a], with retries left, makes
    the controller wait exactly [2 ^ a * 1000] ms, that is 1000, 2000 or
    4000 ms for [a] = 0, 1, 2: the back-off timer is armed with that delay,
    no request is made before it expires, and the next attempt, number
    [a + 1], is made when it does.  [loading] stays true all along: it is
    true when the failure has been handled, at every time of the wait and
    when the retry is under way. *)
Theorem backoff_doubles (w : World) (c : nat) (k : Call) (e : Event)
    (err : Thrown) :
  mounted w = true ->
  calls w !! c = Some k ->
  timers w = [] ->
  loading (hook w) = true ->
  fails_with c k e err ->
  transient err = true ->
  0 <= attempts k < MAX_RETRIES ->
  let d := 2 ^ attempts k * 1000 in
  let w1 := step w e in
  let w3 := step w1 (Elapse d) in
  ((attempts k = 0 /\ d = 1000) \/ (attempts k = 1 /\ d = 2000) \/
   (attempts k = 2 /\ d = 4000)) /\
  timers w1 = [{| remaining := d; callback := Backoff c |}] /\
  waits (log w1) = waits (log w) ++ [d] /\
  requests (log w1) = requests (log w) /\
  loading (hook w1) = true /\
  (forall dt, 0 <= dt < d ->
     let w2 := step w1 (Elapse dt) in
     loading (hook w2) = true /\
     requests (log w2) = requests (log w) /\
     timers w2 = [{| remaining := d - dt; callback := Backoff c |}]) /\
  loading (hook w3) = true /\
  requests (log w3) = requests (log w) ++ [request_url (cursor k)] /\
  calls w3 !! c = Some {| cursor := cursor k; attempts := attempts k + 1;
                          awaiting := AwaitFetch |} /\
  timers w3 = [].
Proof.
  intros Hm Hc Ht Hl He Htr Hn d w1 w3.
  assert (w1 = with_calls (<[c := {| cursor := cursor k; attempts := attempts k;
                                     awaiting := AwaitDelay |}]> (calls w))
                 (setTimeout (Backoff c) d w)) as Hw1.
  { subst w1. apply (transient_failure w c k e err); try assumption. lia. }
  assert (timers w1 = [{| remaining := d; callback := Backoff c |}]) as Ht1.
  { rewrite Hw1. world w. reflexivity. }
  assert (0 < d) as Hd by apply (backoff_pos _ Hn).
  assert (w3 = fetchData_enter c (cursor k) (attempts k + 1) (with_timers [] w1))
    as Hw3.
  { subst w3.
    apply (elapse_backoff w1 c {| cursor := cursor k; attempts := attempts k;
                                  awaiting := AwaitDelay |} d);
      [rewrite Hw1; world w; reflexivity|lia|exact Ht1| |reflexivity].
    rewrite Hw1. world w. apply lookup_insert_eq. }
  clearbody w1 w3.
  split; [apply (backoff_values _ Hn)|].
  split; [exact Ht1|].
  refine (conj _ (conj _ (conj _ (conj _ _)))).
  1-3: rewrite Hw1; world w; wsimpl; rewrite ?waits_app, ?requests_app;
       cbn; rewrite ?app_nil_r; first [reflexivity|assumption].
  - intros dt Hdt w2. subst w2.
    rewrite (elapse_before w1 _ dt Ht1) by exact Hdt.
    rewrite Hw1. world w. wsimpl. rewrite requests_app. cbn.
    rewrite app_nil_r. repeat split. assumption.
  - rewrite Hw3, Hw1. world w. wsimpl. rewrite !requests_app. cbn.
    rewrite app_nil_r. repeat split. apply lookup_insert_eq.
Qed.

Lemma backoff_doubles_witness :
  let r := Fulfilled {| status := 503; statusText := "Service Unavailable" |} in
  let w1 := step mount (FetchSettled 0%nat r) in
  let w3 := step w1 (Elapse 1000) in
  ((0 = 0 /\ 1000 = 1000) \/ (0 = 1 /\ 1000 = 2000) \/ (0 = 2 /\ 1000 = 4000)) /\
  timers w1 = [{| remaining := 1000; callback := Backoff 0 |}] /\
  waits (log w1) = [1000] /\
  requests (log w1) = [default_url] /\
  loading (hook w1) = true /\
  (forall dt, 0 <= dt < 1000 ->
     let w2 := step w1 (Elapse dt) in
     loading (hook w2) = true /\
     requests (log w2) = [default_url] /\
     timers w2 = [{| remaining := 1000 - dt; callback := Backoff 0 |}]) /\
  loading (hook w3) = true /\
  requests (log w3) = [default_url; default_url] /\
  calls w3 !! 0%nat = Some {| cursor := None; attempts := 1; awaiting := AwaitFetch |} /\
  timers w3 = [].
Proof.
  intros r.
  apply (backoff_doubles mount 0%nat
           {| cursor := None; attempts := 0; awaiting := AwaitFetch |}
           (FetchSettled 0%nat r)
           (JsError "Error" "503: Service Unavailable" (Some 503)));
    try reflexivity.
  - apply fetch_fails; reflexivity.
  - unfold MAX_RETRIES. cbn. lia.
Defined.

(** ** The auto-dismiss timer *)

Lemma spares_update (f : Hook -> Hook) : spares_dismiss (update f).
Proof. intros [h [] ? ? ? ? ?]; now split. Qed.

Lemma spares_finally (c : nat) (k : Call) : spares_dismiss (finally_ c k).
Proof.
  intros w. rewrite finally_once.
  destruct w as [h [] ? ? ? ? ?]; now split.
Qed.

Lemma spares_compose (f g : World -> World) :
  spares_dismiss f -> spares_dismiss g -> spares_dismiss (fun w => g (f w)).
Proof.
  intros Hf Hg w. destruct (Hf w) as [<- <-]. apply Hg.
Qed.

Lemma spares_backoff_timeout (c : nat) (d : Z) (m : World -> gmap nat Call) :
  spares_dismiss (fun w => with_calls (m w) (setTimeout (Backoff c) d w)).
Proof.
  intros [h mt ? ? ? ts ?]. split; [reflexivity|].
  unfold dismissals. cbn. rewrite omap_app. cbn. apply app_nil_r.
Qed.

Lemma spares_catch (c : nat) (k : Call) (err : Thrown) : spares_dismiss (catch_ c k err).
Proof.
  unfold catch_. destruct err as [n m cause|]; [|apply spares_finally].
  destruct (negb _); [|apply spares_finally].
  destruct (client_error cause); [|destruct (_ <=? _)].
  - apply (spares_compose _ _ (spares_update _) (spares_finally c k)).
  - apply (spares_compose _ _ (spares_update _) (spares_finally c k)).
  - apply (spares_backoff_timeout c _
             (fun w => <[c := _]> (calls (setTimeout (Backoff c) _ w)))).
Qed.

Lemma spares_fetch_settled (c : nat) (k : Call) (r : Settled Response) :
  spares_dismiss (fetch_settled c k r).
Proof.
  destruct r as [resp|err]; unfold fetch_settled; [|apply spares_catch].
  destruct (ok resp); [now intros w|apply spares_catch].
Qed.

Lemma spares_json_settled (c : nat) (k : Call) (r : Settled StarWarsApiResponse) :
  spares_dismiss (json_settled c k r).
Proof.
  destruct r as [data|err]; unfold json_settled; [|apply spares_catch].
  apply (spares_compose (fun w => update _ (update _ w)) _); [|apply spares_finally].
  apply (spares_compose _ _ (spares_update _) (spares_update _)).
Qed.

Lemma spares_fetchData_enter (c : nat) (page : option string) (n : Z) :
  spares_dismiss (fetchData_enter c page n).
Proof. intros [h [] ? ? ? ? ?]; now split. Qed.

Lemma spares_setPage (page : option string) : spares_dismiss (setPage page).
Proof.
  unfold setPage. destruct (negb _); [now intros w|apply spares_update].
Qed.

Lemma dismiss_inv_error_effect (w : World) :
  mounted w = true -> dismiss_inv (error_effect (error_cleanup w)).
Proof.
  intros Hm. split.
  - rewrite (agree_mounted _ _ (error_effect_agree w)). congruence.
  - rewrite (agree_hook _ _ (error_effect_agree w)), error_effect_dismissals.
    now intros ->.
Qed.

Lemma dismissals_fetch_effect (w : World) :
  dismissals (fetch_effect (fetch_cleanup w)) = dismissals w.
Proof. destruct w as [h [] ? ? ? ? ?]; reflexivity. Qed.

Lemma mounted_fetch_effect (w : World) :
  mounted (fetch_effect (fetch_cleanup w)) = mounted w.
Proof. destruct w as [h [] ? ? ? ? ?]; reflexivity. Qed.

Lemma dismiss_inv_commit (prev : Hook) (w : World) :
  (mounted w = false -> dismissals w = []) ->
  (truthy (error prev) = false -> dismissals w = []) ->
  dismiss_inv (commit prev w).
Proof.
  intros Hu He. unfold commit. destruct (mounted w) eqn:Hm.
  - destruct (decide (currentPage (hook w) = currentPage prev)).
    + destruct (decide (error (hook w) = error prev)) as [Heq|Hne].
      * split; [congruence|]. rewrite Heq. exact He.
      * now apply dismiss_inv_error_effect.
    + destruct (decide _) as [Heq|Hne].
      * split; [rewrite mounted_fetch_effect; congruence|].
        rewrite Heq, dismissals_fetch_effect. exact He.
      * apply dismiss_inv_error_effect. now rewrite mounted_fetch_effect.
  - split; intros _; now apply Hu.
Qed.

Lemma dismiss_inv_handle (f : World -> World) (w : World) :
  spares_dismiss f -> dismiss_inv w -> dismiss_inv (handle f w).
Proof.
  intros Hf [Hu He]. destruct (Hf w) as [Hm Hd].
  apply dismiss_inv_commit; rewrite ?Hm, Hd; assumption.
Qed.

(** ** Timers *)

Lemma earliest_none (ts : list Timer) : earliest ts = None -> ts = [].
Proof.
  destruct ts as [|t ts]; [reflexivity|]. cbn.
  destruct (earliest ts) as [u|]; [destruct (_ <? _)|]; discriminate.
Qed.

Lemma earliest_least (ts : list Timer) (t : Timer) :
  earliest ts = Some t ->
  t ∈ ts /\ forall u, u ∈ ts -> remaining t <= remaining u.
Proof.
  revert t. induction ts as [|a ts IH]; intros t; [discriminate|]. cbn.
  destruct (earliest ts) as [b|] eqn:Hb.
  - destruct (IH b eq_refl) as [Hin Hle].
    destruct (remaining b <? remaining a) eqn:Hlt; intros [= <-].
    + apply Z.ltb_lt in Hlt. split; [now right|].
      intros u [->|Hu]%elem_of_cons; [lia|now apply Hle].
    + apply Z.ltb_ge in Hlt. split; [now left|].
      intros u [->|Hu]%elem_of_cons; [lia|]. specialize (Hle u Hu). lia.
  - intros [= <-]. apply earliest_none in Hb. subst ts. split; [now left|].
    intros u [->|Hu]%elem_of_cons; [lia|]. now apply elem_of_nil in Hu.
Qed.

Lemma due_some (dt : Z) (ts : list Timer) (t : Timer) :
  due dt ts = Some t ->
  t ∈ ts /\ remaining t <= dt /\ forall u, u ∈ ts -> remaining t <= remaining u.
Proof.
  unfold due. destruct (earliest ts) as [u|] eqn:He; [|discriminate].
  destruct (remaining u <=? dt) eqn:Hle; [|discriminate]. intros [= <-].
  apply Z.leb_le in Hle. destruct (earliest_least ts u He). auto.
Qed.

Lemma due_none (dt : Z) (ts : list Timer) :
  due dt ts = None -> forall u, u ∈ ts -> dt < remaining u.
Proof.
  unfold due. destruct (earliest ts) as [t|] eqn:He.
  - destruct (remaining t <=? dt) eqn:Hle; [discriminate|]. intros _ u Hu.
    apply Z.leb_gt in Hle. destruct (earliest_least ts t He) as [_ Hmin].
    specialize (Hmin u Hu). lia.
  - intros _ u Hu. apply earliest_none in He. subst ts.
    now apply elem_of_nil in Hu.
Qed.

Lemma not_due (dt : Z) (ts : list Timer) :
  (forall u, u ∈ ts -> dt < remaining u) -> due dt ts = None.
Proof.
  intros Hall. destruct (due dt ts) as [t|] eqn:Hd; [|reflexivity].
  destruct (due_some dt ts t Hd) as (Hin & Hle & _).
  specialize (Hall t Hin). lia.
Qed.

(** No timer expires: time passes and the rest is untouched. *)
Lemma elapse_idle (fuel : nat) (dt : Z) (w : World) :
  (forall u, u ∈ timers w -> dt < remaining u) ->
  elapse fuel dt w = age dt w.
Proof.
  intros Hall. destruct fuel as [|n]; [reflexivity|].
  cbn [elapse]. now rewrite not_due.
Qed.

Lemma dismissals_age (d : Z) (w : World) :
  dismissals (age d w) = (fun r => r - d) <$> dismissals w.
Proof.
  unfold dismissals, age. cbn [timers with_timers].
  induction (timers w) as [|t ts IH]; [reflexivity|].
  cbn. destruct (callback t); cbn; now rewrite IH.
Qed.

Lemma dismissals_clearTimeout (k : TimerKind) (w : World) :
  dismissals w = [] -> dismissals (clearTimeout k w) = [].
Proof.
  unfold dismissals, clearTimeout. cbn [timers with_timers].
  induction (timers w) as [|t ts IH]; [reflexivity|].
  cbn [omap list_omap]. rewrite filter_cons.
  destruct (callback t) eqn:Hk; [discriminate|]. intros Hts.
  destruct (decide _); [cbn [omap list_omap]; rewrite Hk|]; now apply IH.
Qed.

Lemma dismiss_inv_age (d : Z) (w : World) : dismiss_inv w -> dismiss_inv (age d w).
Proof.
  intros [Hu He]. split; intros H; rewrite dismissals_age.
  - now rewrite (Hu H).
  - now rewrite (He H).
Qed.

Lemma dismiss_inv_clearTimeout (k : TimerKind) (w : World) :
  dismiss_inv w -> dismiss_inv (clearTimeout k w).
Proof.
  intros [Hu He]. split; intros H; apply dismissals_clearTimeout; auto.
Qed.

Lemma dismiss_inv_fire (k : TimerKind) (w : World) :
  dismiss_inv w -> dismiss_inv (fire k w).
Proof.
  intros Hw. destruct k as [|c]; cbn [fire].
  - apply dismiss_inv_handle; [apply spares_update|exact Hw].
  - destruct (calls w !! c) as [call|]; [|exact Hw].
    destruct (awaiting call); try exact Hw.
    apply dismiss_inv_handle; [apply spares_fetchData_enter|exact Hw].
Qed.

Lemma dismiss_inv_elapse (fuel : nat) (dt : Z) (w : World) :
  dismiss_inv w -> dismiss_inv (elapse fuel dt w).
Proof.
  revert dt w. induction fuel as [|n IH]; intros dt w Hw; cbn [elapse].
  - now apply dismiss_inv_age.
  - destruct (due dt (timers w)) as [t|]; [|now apply dismiss_inv_age].
    apply IH, dismiss_inv_fire, dismiss_inv_clearTimeout, dismiss_inv_age, Hw.
Qed.

Lemma dismiss_inv_unmount (w : World) : dismiss_inv w -> dismiss_inv (unmount w).
Proof.
  intros Hw. unfold unmount. destruct (mounted w) eqn:Hm; [|exact Hw].
  assert (dismissals (error_cleanup (fetch_cleanup w)) = []) as Hd.
  { unfold dismissals, error_cleanup, clearTimeout. cbn. apply dismissals_filter. }
  split; intros _; exact Hd.
Qed.

Lemma dismiss_inv_step (w : World) (e : Event) :
  dismiss_inv w -> dismiss_inv (step w e).
Proof.
  intros Hw. destruct e as [page|c r|c r|dt|]; cbn [step].
  - apply dismiss_inv_handle; [apply spares_setPage|exact Hw].
  - destruct (calls w !! c) as [k|]; [|exact Hw].
    destruct (awaiting k); try exact Hw.
    apply dismiss_inv_handle; [apply spares_fetch_settled|exact Hw].
  - destruct (calls w !! c) as [k|]; [|exact Hw].
    destruct (awaiting k); try exact Hw.
    apply dismiss_inv_handle; [apply spares_json_settled|exact Hw].
  - destruct (0 <=? dt); [now apply dismiss_inv_elapse|exact Hw].
  - now apply dismiss_inv_unmount.
Qed.

Lemma dismiss_inv_run (es : list Event) (w : World) :
  dismiss_inv w -> dismiss_inv (run es w).
Proof.
  revert w. induction es as [|e es IH]; intros w Hw; [exact Hw|].
  apply IH, dismiss_inv_step, Hw.
Qed.

Lemma dismiss_inv_mount : dismiss_inv mount.
Proof. split; intros _; reflexivity. Qed.

(** *** What a timer callback does *)

Lemma mounted_commit (prev : Hook) (w : World) : mounted (commit prev w) = mounted w.
Proof.
  unfold commit. destruct (mounted w) eqn:Hm; [|exact Hm].
  assert (forall v, mounted v = true -> mounted (if decide (error (hook v) = error prev)
            then v else error_effect (error_cleanup v)) = true) as Hv.
  { intros v Hv. destruct (decide _); [exact Hv|].
    now rewrite (agree_mounted _ _ (error_effect_agree v)). }
  destruct (decide (currentPage (hook w) = currentPage prev)); apply Hv;
    [exact Hm|now rewrite mounted_fetch_effect].
Qed.

Lemma mounted_handle (f : World -> World) (w : World) :
  spares_dismiss f -> mounted (handle f w) = mounted w.
Proof.
  intros Hf. unfold handle. rewrite mounted_commit. apply Hf.
Qed.

Lemma mounted_fire (k : TimerKind) (w : World) : mounted (fire k w) = mounted w.
Proof.
  destruct k as [|c]; cbn [fire].
  - apply mounted_handle, spares_update.
  - destruct (calls w !! c) as [call|]; [|reflexivity].
    destruct (awaiting call); try reflexivity.
    apply mounted_handle, spares_fetchData_enter.
Qed.

Lemma commit_timers_le (prev : Hook) (w : World) :
  currentPage (hook w) = currentPage prev ->
  (mounted w = true -> truthy (error (hook w)) = false) ->
  (length (timers (commit prev w)) <= length (timers w))%nat.
Proof.
  intros Hp He. destruct (mounted w) eqn:Hm.
  - rewrite commit_same_page by assumption.
    destruct (decide _); [lia|].
    unfold error_effect.
    change (truthy (error (hook (error_cleanup w)))) with (truthy (error (hook w))).
    rewrite (He eq_refl). apply length_filter.
  - unfold commit. rewrite Hm. lia.
Qed.

(** A callback either leaves [error] as it is or sets it to [null], and it
    arms no timer. *)
Lemma fire_facts (k : TimerKind) (w : World) :
  (error (hook (fire k w)) = error (hook w) \/ error (hook (fire k w)) = None) /\
  (length (timers (fire k w)) <= length (timers w))%nat.
Proof.
  assert (forall f : World -> World,
            (forall v, currentPage (hook (f v)) = currentPage (hook v)) ->
            (forall v, timers (f v) = timers v) ->
            (forall v, mounted v = true -> error (hook (f v)) = None) ->
            (forall v, mounted v = false -> hook (f v) = hook v) ->
            spares_dismiss f ->
            (error (hook (handle f w)) = error (hook w) \/
             error (hook (handle f w)) = None) /\
            (length (timers (handle f w)) <= length (timers w))%nat) as Hgen.
  { intros f Hp Ht Hn Hu Hf. split.
    - rewrite (agree_hook _ _ (handle_agree f w (Hp w))).
      destruct (mounted w) eqn:Hm; [right; now apply Hn|left; now rewrite Hu].
    - rewrite <- (Ht w). apply commit_timers_le; [apply Hp|].
      intros Hm. destruct (Hf w) as [Hm' _]. rewrite Hm' in Hm.
      now rewrite (Hn w Hm). }
  destruct k as [|c]; cbn [fire].
  - apply Hgen; try apply spares_update; intros [h [] ? ? ? ? ?]; now intros.
  - destruct (calls w !! c) as [call|]; [|split; [now left|lia]].
    destruct (awaiting call); try (split; [now left|lia]).
    apply Hgen; try apply spares_fetchData_enter;
      intros [h [] ? ? ? ? ?]; now intros.
Qed.

Lemma fire_dismiss (w : World) :
  mounted w = true -> error (hook (fire Dismiss w)) = None.
Proof.
  intros Hm. cbn [fire].
  rewrite (agree_hook _ _ (handle_agree (update (setError None)) w
                             (update_page (setError None) w (fun h => eq_refl)))).
  world w. reflexivity.
Qed.

(** One turn of the loop of [elapse] uses up a timer. *)
Lemma elapse_turn_shorter (t : Timer) (w : World) :
  t ∈ timers w ->
  (length (timers (fire (callback t) (clearTimeout (callback t) (age (remaining t) w))))
   < length (timers w))%nat.
Proof.
  intros Hin.
  destruct (fire_facts (callback t) (clearTimeout (callback t) (age (remaining t) w)))
    as [_ Hle].
  assert (length (timers (clearTimeout (callback t) (age (remaining t) w)))
          < length (timers w))%nat; [|lia].
  unfold clearTimeout, age. cbn [timers with_timers].
  set (aged := fun u => {| remaining := remaining u - remaining t;
                           callback := callback u |}).
  replace (length (timers w)) with (length (aged <$> timers w))
    by apply length_fmap.
  apply (length_filter_lt _ _ (aged t)).
  - now apply list_elem_of_fmap_2.
  - cbn. intros Hne. now apply Hne.
Qed.

(** The fuel [step] gives to [elapse] is enough: afterwards no timer is
    left that should have fired. *)
Lemma elapse_fires_all_due (fuel : nat) (dt : Z) (w : World) :
  (length (timers w) <= fuel)%nat ->
  forall t, t ∈ timers (elapse fuel dt w) -> 0 < remaining t.
Proof.
  revert dt w. induction fuel as [|n IH]; intros dt w Hlen t; cbn [elapse].
  - destruct (timers w) eqn:Hts; [|cbn in Hlen; lia].
    unfold age. rewrite Hts. cbn. intros Hin. now apply elem_of_nil in Hin.
  - destruct (due dt (timers w)) as [t0|] eqn:Hd.
    + apply IH. destruct (due_some _ _ _ Hd) as (Hin & _).
      pose proof (elapse_turn_shorter t0 w Hin). lia.
    + unfold age. cbn [timers with_timers].
      intros (u & -> & Hu)%list_elem_of_fmap. cbn.
      pose proof (due_none _ _ Hd u Hu). lia.
Qed.

(** In particular [step] lets every timer fire that expires within [dt]. *)
Lemma step_elapse_complete (w : World) (dt : Z) (t : Timer) :
  0 <= dt -> t ∈ timers (step w (Elapse dt)) -> 0 < remaining t.
Proof.
  intros Hdt. cbn [step]. rewrite (proj2 (Z.leb_le 0 dt)) by exact Hdt.
  now apply elapse_fires_all_due.
Qed.

Lemma elapse_mounted (fuel : nat) (dt : Z) (w : World) :
  mounted (elapse fuel dt w) = mounted w.
Proof.
  revert dt w. induction fuel as [|n IH]; intros dt w; [reflexivity|].
  cbn [elapse]. destruct (due dt (timers w)) as [t|]; [|reflexivity].
  now rewrite IH, mounted_fire.
Qed.

(** The passing of time never sets an error. *)
Lemma elapse_error (fuel : nat) (dt : Z) (w : World) :
  error (hook (elapse fuel dt w)) = error (hook w) \/
  error (hook (elapse fuel dt w)) = None.
Proof.
  revert dt w. induction fuel as [|n IH]; intros dt w; [now left|].
  cbn [elapse]. destruct (due dt (timers w)) as [t|]; [|now left].
  set (v := clearTimeout (callback t) (age (remaining t) w)).
  destruct (IH (dt - remaining t) (fire (callback t) v)) as [-> | ->]; [|now right].
  destruct (fire_facts (callback t) v) as [[-> | ->] _]; [now left|now right].
Qed.

Lemma dismissals_clear_backoff (c : nat) (w : World) :
  dismissals (clearTimeout (Backoff c) w) = dismissals w.
Proof.
  unfold dismissals, clearTimeout. cbn [timers with_timers].
  induction (timers w) as [|t ts IH]; [reflexivity|].
  rewrite filter_cons. destruct (decide (callback t <> Backoff c)) as [Hk|Hk].
  - cbn [omap list_omap]. now rewrite IH.
  - cbn [omap list_omap]. destruct (callback t); [|exact IH].
    exfalso. apply Hk. discriminate.
Qed.

(** A callback of a back-off timer that leaves [error] non-null did
    nothing. *)
Lemma fire_backoff_idle (c : nat) (w : World) :
  mounted w = true ->
  error (hook (fire (Backoff c) w)) = None \/ fire (Backoff c) w = w.
Proof.
  intros Hm. cbn [fire]. destruct (calls w !! c) as [call|]; [|now right].
  destruct (awaiting call); try now right.
  left. unfold delay_elapsed.
  rewrite (agree_hook _ _ (handle_agree _ w (fetchData_enter_page _ _ _ _))).
  world w. reflexivity.
Qed.

(** Once the delay of the auto-dismiss timer has passed, [error] is null. *)
Lemma elapse_dismisses (fuel : nat) (dt : Z) (w : World) :
  mounted w = true ->
  (length (timers w) <= fuel)%nat ->
  (error (hook w) = None \/ exists r, r ∈ dismissals w /\ r <= dt) ->
  error (hook (elapse fuel dt w)) = None.
Proof.
  revert dt w. induction fuel as [|n IH]; intros dt w Hm Hlen Hcase.
  - destruct Hcase as [He|(r & Hr & _)]; [exact He|].
    destruct (timers w) eqn:Hts; [|cbn in Hlen; lia].
    unfold dismissals in Hr. rewrite Hts in Hr. now apply elem_of_nil in Hr.
  - cbn [elapse]. destruct (due dt (timers w)) as [t|] eqn:Hd.
    + destruct (due_some _ _ _ Hd) as (Hin & Hle & Hmin).
      set (v := clearTimeout (callback t) (age (remaining t) w)).
      assert (mounted v = true) as Hmv by exact Hm.
      apply IH.
      * now rewrite mounted_fire.
      * pose proof (elapse_turn_shorter t w Hin). fold v in H. lia.
      * destruct Hcase as [He|(r & Hr & Hrdt)].
        { left. destruct (fire_facts (callback t) v) as [[Hf|Hf] _]; [|exact Hf].
          rewrite Hf. exact He. }
        destruct (callback t) as [|c] eqn:Hk.
        { left. now apply fire_dismiss. }
        destruct (fire_backoff_idle c v Hmv) as [Hf|Hf]; [now left|]. right.
        rewrite Hf. exists (r - remaining t). split; [|lia].
        unfold v. rewrite dismissals_clear_backoff, dismissals_age.
        now apply (list_elem_of_fmap_2 (fun x => x - remaining t)).
    + destruct Hcase as [He|(r & Hr & Hrdt)]; [exact He|]. exfalso.
      apply list_elem_of_omap in Hr as (t & Ht & Hrt).
      pose proof (due_none _ _ Hd t Ht).
      destruct (callback t); [|discriminate]. injection Hrt as <-. lia.
Qed.

(** When an event changes [error], the clean-up of the error effect cancels
    the pending timer and the effect arms a fresh one of 3000 ms, unless the
    new value is falsy. *)
Lemma step_error_change (w : World) (e : Event) :
  dismiss_inv w ->
  mounted w = true ->
  error (hook (step w e)) <> error (hook w) ->
  dismissals (step w e) = if truthy (error (hook (step w e))) then [3000] else [].
Proof.
  intros Hinv Hm.
  assert (forall f : World -> World,
            spares_dismiss f ->
            currentPage (hook (f w)) = currentPage (hook w) ->
            error (hook (handle f w)) <> error (hook w) ->
            dismissals (handle f w) =
            if truthy (error (hook (handle f w))) then [3000] else []) as Hgen.
  { intros f Hf Hp. rewrite (agree_hook _ _ (handle_agree f w Hp)). intros Hne.
    unfold handle. rewrite commit_dismissals; [|destruct (Hf w); congruence|exact Hp].
    now rewrite decide_False. }
  destruct e as [page|c r|c r|dt|]; cbn [step].
  - destruct page as [s|];
      [|intros Hne; now rewrite (handle_nothing (setPage None) w eq_refl) in Hne].
    destruct (decide (s = "")) as [->|Hs];
      [intros Hne; now rewrite (handle_nothing (setPage (Some "")) w eq_refl) in Hne|].
    destruct (decide (currentPage (hook w) = Some s)) as [Hp|Hp].
    + apply Hgen; [apply spares_setPage|].
      unfold setPage. rewrite truthy_nonempty by exact Hs. world w. now cbn.
    + destruct (setPage_changes_cursor w s Hm Hs Hp) as (Hh & _ & _ & _ & _ & _ & _ & Hd).
      cbn [step] in Hh, Hd. rewrite Hh, Hd. cbn. intros Hne.
      rewrite decide_False; [reflexivity|congruence].
  - destruct (calls w !! c) as [k|]; [|now intros].
    destruct (awaiting k); try now intros.
    apply Hgen; [apply spares_fetch_settled|apply fetch_settled_page].
  - destruct (calls w !! c) as [k|]; [|now intros].
    destruct (awaiting k); try now intros.
    apply Hgen; [apply spares_json_settled|apply json_settled_page].
  - destruct (0 <=? dt); [|now intros].
    pose proof (dismiss_inv_elapse (length (timers w)) dt w Hinv) as [_ Hfalsy].
    destruct (elapse_error (length (timers w)) dt w) as [He|He]; [now intros|].
    intros _. rewrite He. cbn. apply Hfalsy. now rewrite He.
  - unfold unmount. rewrite Hm. now intros.
Qed.

Lemma step_mounted (w : World) (e : Event) :
  e <> Unmount -> mounted (step w e) = mounted w.
Proof.
  intros He. destruct e as [page|c r|c r|dt|]; cbn [step]; [| | | |contradiction].
  - apply mounted_handle, spares_setPage.
  - destruct (calls w !! c) as [k|]; [|reflexivity].
    destruct (awaiting k); try reflexivity.
    apply mounted_handle, spares_fetch_settled.
  - destruct (calls w !! c) as [k|]; [|reflexivity].
    destruct (awaiting k); try reflexivity.
    apply mounted_handle, spares_json_settled.
  - destruct (0 <=? dt); [apply elapse_mounted|reflexivity].
Qed.

Lemma only_dismiss_timers (w : World) (t : Timer) :
  backoff_timers w = [] -> t ∈ timers w -> remaining t ∈ dismissals w.
Proof.
  intros Hb Ht. apply list_elem_of_omap. exists t. split; [exact Ht|].
  destruct (callback t) eqn:Hk; [reflexivity|]. exfalso.
  assert (t ∈ backoff_timers w) as Hin.
  { apply list_elem_of_filter. split; [|exact Ht]. now rewrite Hk. }
  rewrite Hb in Hin. now apply elem_of_nil in Hin.
Qed.

(** C8, as the code has it.  In every state the mounted controller can
    reach: (1) when an event changes [error], the pending auto-dismiss timer
    is cancelled and a single fresh timer of 3000 ms is armed if the new
    value is a non-empty string, none if it is [null] or empty; (2)
    unmounting cancels the timer; (3) once the delay of a pending timer has
    passed, [error] is [null]; (4) as long as no timer expires, the passing
    of time changes no state cell; (5) so an error that has just become
    visible, with no back-off of an older sequence running, is still there
    at every time before 3000 ms and is [null] from 3000 ms on, provided no
    other event (such as a [setPage], which clears it) comes in between. *)
Theorem auto_dismiss (es : list Event) :
  let w := run es mount in
  mounted w = true ->
  (forall e,
     let w' := step w e in
     error (hook w') <> error (hook w) ->
     dismissals w' = if truthy (error (hook w')) then [3000] else []) /\
  dismissals (step w Unmount) = [] /\
  (forall r dt,
     r ∈ dismissals w -> 0 <= dt -> r <= dt ->
     error (hook (step w (Elapse dt))) = None) /\
  (forall dt,
     0 <= dt -> (forall t, t ∈ timers w -> dt < remaining t) ->
     hook (step w (Elapse dt)) = hook w /\
     dismissals (step w (Elapse dt)) = (fun r => r - dt) <$> dismissals w) /\
  (forall e m,
     let w' := step w e in
     error (hook w) = None -> error (hook w') = Some m -> m <> "" ->
     backoff_timers w' = [] ->
     (forall dt, 0 <= dt < 3000 -> error (hook (step w' (Elapse dt))) = Some m) /\
     (forall dt, 3000 <= dt -> error (hook (step w' (Elapse dt))) = None)).
Proof.
  intros w Hm.
  assert (dismiss_inv w) as Hinv by apply dismiss_inv_run, dismiss_inv_mount.
  assert (forall v r dt, mounted v = true -> r ∈ dismissals v -> 0 <= dt -> r <= dt ->
            error (hook (step v (Elapse dt))) = None) as Hfire.
  { intros v r dt Hv Hr Hdt Hle. cbn [step]. rewrite (proj2 (Z.leb_le 0 dt)) by exact Hdt.
    apply elapse_dismisses; [exact Hv|lia|]. right. now exists r. }
  assert (forall v dt, 0 <= dt -> (forall t, t ∈ timers v -> dt < remaining t) ->
            step v (Elapse dt) = age dt v) as Hidle.
  { intros v dt Hdt Hall. cbn [step]. rewrite (proj2 (Z.leb_le 0 dt)) by exact Hdt.
    now apply elapse_idle. }
  refine (conj _ (conj _ (conj _ (conj _ _)))).
  - intros e w'. now apply step_error_change.
  - cbn [step]. destruct (dismiss_inv_unmount w Hinv) as [Hu _].
    apply Hu. unfold unmount. now rewrite Hm.
  - intros r dt. now apply Hfire.
  - intros dt Hdt Hall. rewrite (Hidle w dt Hdt Hall). split; [reflexivity|].
    apply dismissals_age.
  - intros e m w' Hnone Hsome Hne Hb.
    assert (e <> Unmount) as He.
    { intros ->. subst w'. cbn [step] in Hsome. unfold unmount in Hsome.
      rewrite Hm in Hsome. cbn in Hsome. congruence. }
    assert (mounted w' = true) as Hm' by (subst w'; now rewrite step_mounted).
    assert (dismissals w' = [3000]) as Hd.
    { subst w'. rewrite step_error_change; try assumption; [|congruence].
      now rewrite Hsome, truthy_nonempty. }
    split.
    + intros dt Hdt. rewrite Hidle; [exact Hsome|lia|].
      intros t Ht. apply (only_dismiss_timers w' t Hb) in Ht.
      rewrite Hd in Ht. apply list_elem_of_singleton in Ht. lia.
    + intros dt Hdt. apply (Hfire w' 3000 dt Hm'); [|lia|lia].
      rewrite Hd. now apply list_elem_of_singleton.
Qed.

Lemma auto_dismiss_witness :
  let w' := step mount (FetchSettled 0%nat
                          (Fulfilled {| status := 404; statusText := "Not Found" |})) in
  mounted (run [] mount) = true /\
  dismissals w' = [3000] /\
  (forall dt, 0 <= dt < 3000 ->
     error (hook (step w' (Elapse dt))) = Some "404: Not Found") /\
  (forall dt, 3000 <= dt -> error (hook (step w' (Elapse dt))) = None).
Proof.
  intros w'.
  destruct (auto_dismiss [] eq_refl) as (Harm & _ & _ & _ & Hvisible).
  split; [reflexivity|]. split.
  - apply (Harm (FetchSettled 0%nat
                   (Fulfilled {| status := 404; statusText := "Not Found" |}))).
    discriminate.
  - apply (Hvisible (FetchSettled 0%nat
                       (Fulfilled {| status := 404; statusText := "Not Found" |}))
             "404: Not Found"); [reflexivity|reflexivity|discriminate|reflexivity].
Defined.

(** C8, as the specification states it, fails twice.  An [Error] with an
    empty message makes [error] non-null and arms no timer, so that value is
    never dismissed; and an error that is being shown is cleared before its
    3000 ms are over by the [setError(null)] of the next fetch sequence,
    although no further error has occurred. *)
Lemma dismiss_timer_as_stated_fails :
  let silent := FetchSettled 0%nat (Rejected (networkError "")) in
  let w := run [silent; Elapse 1000; silent; Elapse 2000; silent; Elapse 4000; silent]
             mount in
  let v := step mount (FetchSettled 0%nat
                         (Fulfilled {| status := 404; statusText := "Not Found" |})) in
  let v' := run [Elapse 1000; SetPage (Some "https://swapi.dev/api/people/?page=2")] v in
  (error (hook mount) = None /\ error (hook w) = Some "" /\ timers w = [] /\
   error (hook (step w (Elapse 3000))) = Some "") /\
  (error (hook v) = Some "404: Not Found" /\ dismissals v = [3000] /\
   error (hook v') = None /\ dismissals v' = []).
Proof. vm_compute. repeat split. Qed.

(** ** The start of a sequence and the error of the previous one *)

(** C6, as the code has it: a fetch sequence starts with
    [setLoading(true); setError(null)].  After a [setPage] that changes the
    cursor, [error] is [null] and [loading] is true, no auto-dismiss timer is
    pending, the first request of the new sequence is under way, and the
    items and page links are still those of before; the first render starts
    in the same way. *)
Theorem error_cleared_at_sequence_start (es : list Event) (page : string) :
  let w0 := run es mount in
  let c := S (controller w0) in
  let w := step w0 (SetPage (Some page)) in
  mounted w0 = true ->
  page <> "" ->
  currentPage (hook w0) <> Some page ->
  (error (hook w) = None /\
   loading (hook w) = true /\
   dismissals w = [] /\
   currentPage (hook w) = Some page /\
   calls w !! c = Some {| cursor := Some page; attempts := 0; awaiting := AwaitFetch |} /\
   requests (log w) = requests (log w0) ++ [page] /\
   shown w = shown w0) /\
  (error (hook mount) = None /\ loading (hook mount) = true /\
   requests (log mount) = [default_url]).
Proof.
  intros w0 c w Hm Hne Hp. split; [|repeat split].
  destruct (setPage_changes_cursor w0 page Hm Hne Hp)
    as (Hh & _ & _ & _ & Hcs & Hl & _ & Hd).
  fold w c in Hh, Hcs, Hl, Hd.
  assert (dismiss_inv w0) as [_ Hinv] by apply dismiss_inv_run, dismiss_inv_mount.
  unfold shown. rewrite Hh, Hcs, Hl, Hd, requests_app. cbn.
  repeat split.
  - destruct (decide (error (hook w0) = None)) as [He|He]; [|reflexivity].
    apply Hinv. now rewrite He.
  - apply lookup_insert_eq.
Qed.

Lemma error_cleared_at_sequence_start_witness :
  let w0 := run [FetchSettled 0%nat
                   (Fulfilled {| status := 404; statusText := "Not Found" |})] mount in
  let w := step w0 (SetPage (Some "p2")) in
  (error (hook w) = None /\
   loading (hook w) = true /\
   dismissals w = [] /\
   currentPage (hook w) = Some "p2" /\
   calls w !! 1%nat = Some {| cursor := Some "p2"; attempts := 0; awaiting := AwaitFetch |} /\
   requests (log w) = [default_url; "p2"] /\
   shown w = shown w0) /\
  (error (hook mount) = None /\ loading (hook mount) = true /\
   requests (log mount) = [default_url]).
Proof.
  apply (error_cleared_at_sequence_start
           [FetchSettled 0%nat (Fulfilled {| status := 404; statusText := "Not Found" |})]
           "p2").
  - reflexivity.
  - discriminate.
  - discriminate.
Defined.

(** C6, as the specification states it, fails: the error of a sequence that
    ended with 404 is on display with its timer running; the [setPage] that
    starts the next sequence sets it to [null] at once. *)
Lemma stale_error_does_not_survive_navigation :
  let w0 := step mount (FetchSettled 0%nat
                          (Fulfilled {| status := 404; statusText := "Not Found" |})) in
  let w := step w0 (SetPage (Some "https://swapi.dev/api/people/?page=2")) in
  error (hook w0) = Some "404: Not Found" /\
  dismissals w0 = [3000] /\
  requests (log w) = [default_url; "https://swapi.dev/api/people/?page=2"] /\
  error (hook w) = None /\
  error (hook w) <> error (hook w0).
Proof. vm_compute. repeat split. discriminate. Qed.

(** ** A superseded sequence *)

(** X14: What the code does achieve for an aborted attempt: the [AbortError] is
    neither surfaced nor retried, and the items and page links stay; but the
    [finally] block clears [loading] all the same. *)
Lemma abort_is_silent (w : World) (c : nat) (k : Call) (e : Event)
    (m : string) (cause : option Z) :
  mounted w = true ->
  calls w !! c = Some k ->
  fails_with c k e (JsError "AbortError" m cause) ->
  let w' := step w e in
  error (hook w') = error (hook w) /\
  shown w' = shown w /\
  requests (log w') = requests (log w) /\
  timers w' = timers w /\
  calls w' !! c = None /\
  loading (hook w') = false.
Proof.
  intros Hm Hc He w'. subst w'. rewrite (step_fails w c k e _ Hc He).
  unfold handle. rewrite catch_aborted, finally_once.
  rewrite commit_unchanged; world w; wsimpl; try reflexivity.
  repeat split. apply lookup_delete_eq.
Qed.

(** C2 at its failing inputs.  (1) A [setPage] supersedes the first
    sequence while its request is pending; the aborted [fetch] rejects with
    an [AbortError], the [catch] block skips it, and [finally] sets
    [loading] to false although the request of the new sequence is still
    pending.  (2) A sequence superseded during its back-off is not woken up
    by the abort: when its timer expires it runs [setLoading(true)] and
    [setError(null)], which erases the error the newer sequence has
    surfaced, and the rejection of its new request clears [loading] again.
    (3) Nothing tests the signal before the setters: with a transport that
    resolves after the abort, the late body of the first page replaces the
    items and links of the second. *)
Theorem superseded_sequence_mutates_state :
  let p2 := "https://swapi.dev/api/people/?page=2" in
  let okay := Fulfilled {| status := 200; statusText := "OK" |} in
  let luke := {| url := "u1"; name := "Luke"; height := "172";
                 birth_year := "19BBY"; eye_color := "blue" |} in
  let leia := {| url := "u5"; name := "Leia"; height := "150";
                 birth_year := "19BBY"; eye_color := "brown" |} in
  let page1 := {| data_previous := None; data_next := Some p2; results := [luke] |} in
  let page2 := {| data_previous := Some default_url; data_next := None;
                  results := [leia] |} in
  (let w1 := step mount (SetPage (Some p2)) in
   let w2 := step w1 (FetchSettled 0%nat (Rejected abortError)) in
   aborted w1 = [0%nat] /\ loading (hook w1) = true /\
   calls w2 !! 1%nat = Some {| cursor := Some p2; attempts := 0; awaiting := AwaitFetch |} /\
   loading (hook w2) = false) /\
  (let v1 := run [FetchSettled 0%nat
                    (Fulfilled {| status := 503; statusText := "Service Unavailable" |});
                  SetPage (Some p2);
                  FetchSettled 1%nat
                    (Fulfilled {| status := 404; statusText := "Not Found" |})] mount in
   let v2 := step v1 (Elapse 1000) in
   let v3 := step v2 (FetchSettled 0%nat (Rejected abortError)) in
   aborted v1 = [0%nat] /\ error (hook v1) = Some "404: Not Found" /\
   loading (hook v1) = false /\
   error (hook v2) = None /\ loading (hook v2) = true /\
   requests (log v2) = [default_url; p2; default_url] /\
   error (hook v3) = None /\ loading (hook v3) = false) /\
  (let u1 := run [FetchSettled 0%nat okay; SetPage (Some p2); FetchSettled 1%nat okay;
                  JsonSettled 1%nat (Fulfilled page2)] mount in
   let u2 := step u1 (JsonSettled 0%nat (Fulfilled page1)) in
   aborted u1 = [0%nat] /\ currentPage (hook u1) = Some p2 /\
   shown u1 = page_of page2 /\
   currentPage (hook u2) = Some p2 /\ shown u2 = page_of page1).
Proof. vm_compute. repeat split. Qed.

(** * Further properties of the hook *)

(** ** [setPage] with the cursor it already has *)

Lemma same_cursor_idle (w : World) (s : string) :
  currentPage (hook w) = Some s -> handle (setPage (Some s)) w = w.
Proof.
  intros Hp. apply handle_nothing. unfold setPage.
  destruct (negb _); [reflexivity|].
  destruct w as [[ld er cs cp pg] [] ? ? ? ? ?]; cbn in *; now subst.
Qed.

(** X1: [setCurrentPage] with the value the cell holds leaves the dependency of
    the fetch effect as it is: no sequence starts, nothing is aborted, no
    request is made.  In particular, asking again for the page whose
    sequence has just failed does not retry it. *)
Theorem setPage_same_cursor_noop (w : World) (s : string) :
  currentPage (hook w) = Some s -> step w (SetPage (Some s)) = w.
Proof. intros Hp. cbn [step]. now apply same_cursor_idle. Qed.

Lemma setPage_same_cursor_noop_witness :
  let w := run [SetPage (Some "p2");
                FetchSettled 1%nat (Fulfilled {| status := 404; statusText := "Not Found" |})]
             mount in
  currentPage (hook w) = Some "p2" /\ step w (SetPage (Some "p2")) = w.
Proof.
  intros w. split; [reflexivity|].
  apply (setPage_same_cursor_noop w "p2"). reflexivity.
Defined.

(** ** After the unmount *)

Lemma unmounted_update (f : Hook -> Hook) (w : World) :
  mounted w = false -> update f w = w.
Proof. intros Hm. unfold update. now rewrite Hm. Qed.

Lemma unmounted_finally (c : nat) (k : Call) (w : World) :
  mounted w = false -> hook (finally_ c k w) = hook w.
Proof.
  intros Hm. rewrite finally_once, unmounted_update by exact Hm. reflexivity.
Qed.

Lemma unmounted_catch (c : nat) (k : Call) (err : Thrown) (w : World) :
  mounted w = false -> hook (catch_ c k err w) = hook w.
Proof.
  intros Hm. unfold catch_. destruct err as [n m cause|]; [|now apply unmounted_finally].
  destruct (negb _); [|now apply unmounted_finally].
  rewrite (unmounted_update _ w Hm).
  destruct (client_error cause); [|destruct (_ <=? _)];
    try now apply unmounted_finally.
  reflexivity.
Qed.

Lemma unmounted_handle (f : World -> World) (w : World) :
  spares_dismiss f ->
  mounted w = false ->
  hook (f w) = hook w ->
  hook (handle f w) = hook w.
Proof.
  intros Hf Hm Hh. unfold handle, commit.
  destruct (Hf w) as [-> _]. now rewrite Hm.
Qed.

Lemma unmounted_fire (k : TimerKind) (w : World) :
  mounted w = false -> hook (fire k w) = hook w.
Proof.
  intros Hm. destruct k as [|c]; cbn [fire].
  - apply unmounted_handle; [apply spares_update|exact Hm|].
    now rewrite unmounted_update.
  - destruct (calls w !! c) as [call|]; [|reflexivity].
    destruct (awaiting call); try reflexivity.
    apply unmounted_handle; [apply spares_fetchData_enter|exact Hm|].
    destruct w as [h [] ? ? ? ? ?]; [discriminate|reflexivity].
Qed.

Lemma unmounted_elapse (fuel : nat) (dt : Z) (w : World) :
  mounted w = false -> hook (elapse fuel dt w) = hook w.
Proof.
  revert dt w. induction fuel as [|n IH]; intros dt w Hm; [reflexivity|].
  cbn [elapse]. destruct (due dt (timers w)) as [t|]; [|reflexivity].
  rewrite IH by (now rewrite mounted_fire). now rewrite unmounted_fire.
Qed.

Lemma unmounted_step (w : World) (e : Event) :
  mounted w = false -> hook (step w e) = hook w /\ mounted (step w e) = false.
Proof.
  intros Hm. split.
  - destruct e as [page|c r|c r|dt|]; cbn [step].
    + apply unmounted_handle; [apply spares_setPage|exact Hm|].
      unfold setPage. destruct (negb _); [reflexivity|].
      now rewrite unmounted_update.
    + destruct (calls w !! c) as [k|]; [|reflexivity].
      destruct (awaiting k); try reflexivity.
      apply unmounted_handle; [apply spares_fetch_settled|exact Hm|].
      destruct r as [resp|err]; unfold fetch_settled;
        [destruct (ok resp); [reflexivity|]|]; now apply unmounted_catch.
    + destruct (calls w !! c) as [k|]; [|reflexivity].
      destruct (awaiting k); try reflexivity.
      apply unmounted_handle; [apply spares_json_settled|exact Hm|].
      destruct r as [data|err]; unfold json_settled; [|now apply unmounted_catch].
      rewrite unmounted_finally; destruct w as [h [] ? ? ? ? ?];
        first [discriminate|reflexivity].
    + destruct (0 <=? dt); [now apply unmounted_elapse|reflexivity].
    + unfold unmount. now rewrite Hm.
  - destruct e as [page|c r|c r|dt|];
      try (now rewrite step_mounted by discriminate).
    cbn [step]. unfold unmount. now rewrite Hm.
Qed.

(** X2: Unmounting aborts the controller of the running effect and cancels the
    auto-dismiss timer without touching a state cell; from then on no
    event, neither a late response nor a timer nor a [setPage], changes the
    state cells or mounts the component again. *)
Theorem unmount_freezes_state (w : World) (es : list Event) :
  mounted w = true ->
  let w' := step w Unmount in
  controller w ∈ aborted w' /\
  dismissals w' = [] /\
  backoff_timers w' = backoff_timers w /\
  hook w' = hook w /\
  hook (run es w') = hook w /\
  mounted (run es w') = false.
Proof.
  intros Hm w'.
  assert (mounted w' = false /\ hook w' = hook w) as [Hm' Hh].
  { subst w'. cbn [step]. unfold unmount. now rewrite Hm. }
  refine (conj _ (conj _ (conj _ (conj Hh _)))).
  - subst w'. cbn [step]. unfold unmount. rewrite Hm. cbn. now left.
  - subst w'. cbn [step]. unfold unmount. rewrite Hm. cbn.
    unfold dismissals. cbn. apply dismissals_filter.
  - subst w'. cbn [step]. unfold unmount. rewrite Hm. unfold backoff_timers. cbn.
    apply filter_filter_same.
  - rewrite <- Hh. clearbody w'. clear Hh. revert w' Hm'.
    induction es as [|e es IH]; intros v Hv; [now split|].
    change (run (e :: es) v) with (run es (step v e)).
    destruct (unmounted_step v e Hv) as [Hh Hm']. rewrite <- Hh. now apply IH.
Qed.

Lemma unmount_freezes_state_witness :
  let w := step mount (FetchSettled 0%nat
                         (Fulfilled {| status := 503; statusText := "Service Unavailable" |})) in
  let w' := step w Unmount in
  let es := [Elapse 1000; FetchSettled 0%nat (Rejected abortError);
             SetPage (Some "p2")] in
  controller w ∈ aborted w' /\
  dismissals w' = [] /\
  backoff_timers w' = backoff_timers w /\
  hook w' = hook w /\
  hook (run es w') = hook w /\
  mounted (run es w') = false.
Proof.
  intros w w' es. apply (unmount_freezes_state w es). reflexivity.
Defined.

(** ** An error is never shown with the loading flag *)

Lemma catch_error_or_loaded (c : nat) (k : Call) (err : Thrown) (w : World) :
  error (hook (catch_ c k err w)) = error (hook w) \/
  loading (hook (catch_ c k err w)) = false.
Proof.
  destruct (mounted w) eqn:Hm; [|left; now rewrite unmounted_catch].
  unfold catch_. destruct err as [n m cause|].
  - destruct (negb _).
    + destruct (client_error cause); [|destruct (_ <=? _)];
        try (right; rewrite finally_once; world w; reflexivity).
      now left.
    + left. rewrite finally_once. world w. reflexivity.
  - left. rewrite finally_once. world w. reflexivity.
Qed.

Lemma surfaced_then_loaded (w : World) (e : Event) (m : string) :
  error (hook (step w e)) = Some m ->
  error (hook w) <> Some m ->
  loading (hook (step w e)) = false.
Proof.
  assert (forall f : World -> World,
            currentPage (hook (f w)) = currentPage (hook w) ->
            (error (hook (f w)) = error (hook w) \/ loading (hook (f w)) = false) ->
            error (hook (handle f w)) = Some m ->
            error (hook w) <> Some m ->
            loading (hook (handle f w)) = false) as Hgen.
  { intros f Hp Hf. rewrite (agree_hook _ _ (handle_agree f w Hp)).
    destruct Hf as [Hf|Hf]; [congruence|now intros]. }
  destruct e as [page|c r|c r|dt|]; cbn [step].
  - destruct (mounted w) eqn:Hm.
    + destruct page as [s|];
        [|rewrite (handle_nothing (setPage None) w eq_refl); congruence].
      destruct (decide (s = "")) as [->|Hs];
        [rewrite (handle_nothing (setPage (Some "")) w eq_refl); congruence|].
      destruct (decide (currentPage (hook w) = Some s)) as [Hp|Hp].
      * rewrite same_cursor_idle by exact Hp. congruence.
      * destruct (setPage_changes_cursor w s Hm Hs Hp) as (Hh & _).
        cbn [step] in Hh. rewrite Hh. discriminate.
    + change (handle (setPage page) w) with (step w (SetPage page)).
      destruct (unmounted_step w (SetPage page) Hm) as [-> _]. congruence.
  - destruct (calls w !! c) as [k|]; [|congruence].
    destruct (awaiting k); try congruence.
    apply Hgen; [apply fetch_settled_page|].
    destruct r as [resp|err]; unfold fetch_settled;
      [destruct (ok resp); [now left|]|]; apply catch_error_or_loaded.
  - destruct (calls w !! c) as [k|]; [|congruence].
    destruct (awaiting k); try congruence.
    apply Hgen; [apply json_settled_page|].
    destruct r as [data|err]; unfold json_settled; [|apply catch_error_or_loaded].
    left. rewrite finally_once. destruct w as [h [] ? ? ? ? ?]; reflexivity.
  - destruct (0 <=? dt); [|congruence].
    destruct (elapse_error (length (timers w)) dt w) as [-> | ->]; congruence.
  - unfold unmount. destruct (mounted w); cbn; congruence.
Qed.

(** X3: Whenever an event gives [error] a new message, [loading] is false once
    the event has been handled: the error is set only on the two paths that
    [return] through [finally]. *)
Theorem surfaced_error_clears_loading (w : World) (e : Event) (m : string) :
  error (hook (step w e)) = Some m ->
  error (hook w) <> Some m ->
  loading (hook (step w e)) = false.
Proof. apply surfaced_then_loaded. Qed.

Lemma surfaced_error_clears_loading_witness :
  let e := FetchSettled 0%nat (Fulfilled {| status := 404; statusText := "Not Found" |}) in
  error (hook (step mount e)) = Some "404: Not Found" /\
  error (hook mount) <> Some "404: Not Found" /\
  loading (hook (step mount e)) = false.
Proof.
  intros e. split; [reflexivity|]. split; [discriminate|].
  apply (surfaced_error_clears_loading mount e "404: Not Found");
    [reflexivity|discriminate].
Defined.

(** ** Sequences with retries *)

Lemma run_app (es1 es2 : list Event) (w : World) :
  run (es1 ++ es2) w = run es2 (run es1 w).
Proof. apply fold_left_app. Qed.

(** A response that is [ok] only moves the chain on to the decoding. *)
Lemma ok_response (w : World) (c : nat) (k : Call) (resp : Response) :
  calls w !! c = Some k ->
  awaiting k = AwaitFetch ->
  ok resp = true ->
  step w (FetchSettled c (Fulfilled resp)) =
  with_calls (<[c := {| cursor := cursor k; attempts := attempts k;
                        awaiting := AwaitJson |}]> (calls w)) w.
Proof.
  intros Hc Hk Hok. cbn [step]. rewrite Hc, Hk. unfold handle, fetch_settled.
  rewrite Hok. apply commit_unchanged; reflexivity.
Qed.

(** A failed attempt that is retried, whatever the kind of the failure. *)
Lemma failed_attempt_retried (w : World) (c : nat) (k : Call) (f : Failure) :
  calls w !! c = Some k ->
  awaiting k = AwaitFetch ->
  retried f ->
  attempts k < MAX_RETRIES ->
  run (failed_attempt c f) w =
  with_calls (<[c := {| cursor := cursor k; attempts := attempts k;
                        awaiting := AwaitDelay |}]> (calls w))
    (setTimeout (Backoff c) (backoff (attempts k)) w).
Proof.
  intros Hc Hk (err & Hf & Ht) Hn.
  destruct f as [e|resp|resp e]; cbn [failed_attempt run fold_left]; cbn in Hf.
  - injection Hf as ->.
    apply (transient_failure w c k _ err Hc); [now constructor|exact Ht|exact Hn].
  - destruct (ok resp) eqn:Hok; [discriminate|]. injection Hf as <-.
    apply (transient_failure w c k _ (httpError resp) Hc);
      [constructor; [exact Hk|cbn; now rewrite Hok]|exact Ht|exact Hn].
  - destruct (ok resp) eqn:Hok; [|discriminate]. injection Hf as ->.
    rewrite (ok_response w c k resp Hc Hk Hok).
    set (k1 := {| cursor := cursor k; attempts := attempts k; awaiting := AwaitJson |}).
    rewrite (transient_failure _ c k1 _ err);
      [|apply lookup_insert_eq|now constructor|exact Ht|exact Hn].
    world w. unfold setTimeout. wsimpl. cbn [cursor attempts k1].
    now rewrite insert_insert_eq.
Qed.

(** One round of the retry loop, for any kind of transient failure. *)
Lemma retry_round (w : World) (c : nat) (page : option string) (a : Z) (f : Failure) :
  attempting c page a w ->
  retried f ->
  0 <= a < MAX_RETRIES ->
  let w' := run (failed_attempt c f ++ [Elapse (backoff a)]) w in
  attempting c page (a + 1) w' /\
  requests (log w') = requests (log w) ++ [request_url page] /\
  waits (log w') = waits (log w) ++ [backoff a] /\
  shown w' = shown w /\
  currentPage (hook w') = currentPage (hook w) /\
  controller w' = controller w /\
  aborted w' = aborted w.
Proof.
  intros [Hm Ht Hc Hl He] Hf Ha w'.
  assert (w' = fetchData_enter c page (a + 1)
                 (emit (ESetTimeout (Backoff c) (backoff a)) w)) as ->.
  { subst w'. rewrite run_app.
    rewrite (failed_attempt_retried w c _ f Hc eq_refl Hf) by (cbn; lia).
    cbn [run fold_left cursor attempts].
    pose proof (backoff_pos _ Ha) as Hpos.
    rewrite (elapse_backoff _ c {| cursor := page; attempts := a;
                                   awaiting := AwaitDelay |} (backoff a)).
    - world w. unfold fetchData_enter. wsimpl. cbn [cursor attempts].
      now rewrite insert_insert_eq.
    - exact Hm.
    - lia.
    - world w. reflexivity.
    - apply lookup_insert_eq.
    - reflexivity. }
  world w. unfold shown. wsimpl. rewrite !requests_app, !waits_app. cbn.
  rewrite !app_nil_r. repeat split; try assumption; try reflexivity.
  apply lookup_insert_eq.
Qed.

Lemma retries_run (c : nat) (page : option string) (fs : list Failure) :
  forall (a : Z) (w : World),
    attempting c page a w ->
    Forall retried fs ->
    0 <= a ->
    a + Z.of_nat (length fs) <= MAX_RETRIES ->
    let w' := run (retries c a fs) w in
    attempting c page (a + Z.of_nat (length fs)) w' /\
    requests (log w') = requests (log w) ++ replicate (length fs) (request_url page) /\
    waits (log w') = waits (log w) ++ backoffs a (length fs) /\
    shown w' = shown w /\
    currentPage (hook w') = currentPage (hook w) /\
    controller w' = controller w /\
    aborted w' = aborted w.
Proof.
  induction fs as [|f fs IH]; intros a w Hat Hfs Ha Hlen w'.
  - subst w'. cbn [retries run fold_left length replicate backoffs Z.of_nat].
    rewrite Z.add_0_r, !app_nil_r. split; [exact Hat|]. now repeat split.
  - apply Forall_cons in Hfs as [Hf Hfs]. cbn [length] in Hlen.
    assert (w' = run (retries c (a + 1) fs)
                   (run (failed_attempt c f ++ [Elapse (backoff a)]) w)) as ->.
    { subst w'. cbn [retries]. rewrite <- run_app, <- app_assoc. reflexivity. }
    destruct (retry_round w c page a f Hat Hf) as (Hat1 & Hr1 & Hw1 & Hs1 & Hp1 & Hc1 & Hb1);
      [lia|].
    destruct (IH (a + 1) _ Hat1 Hfs) as (Hat2 & Hr2 & Hw2 & Hs2 & Hp2 & Hc2 & Hb2);
      [lia|lia|].
    rewrite Hr2, Hw2, Hs2, Hp2, Hc2, Hb2, Hr1, Hw1, Hs1, Hp1, Hc1, Hb1.
    cbn [length replicate backoffs]. rewrite <- !app_assoc. cbn.
    replace (a + Z.of_nat (S (length fs))) with (a + 1 + Z.of_nat (length fs)) by lia.
    split; [exact Hat2|]. now repeat split.
Qed.

Lemma sequence_start_attempting (w : World) (c : nat) (u : string) (l : list Effect) :
  sequence_start w c u l ->
  timers w = [] ->
  exists page, request_url page = u /\ attempting c page 0 w /\
               log w = l ++ [EFetch c u].
Proof.
  intros Hs Ht.
  destruct (sequence_start_facts _ _ _ _ Hs) as (Hm & _ & (page & Hu & Hc) & Hl & Hld & He).
  exists page. repeat split; assumption.
Qed.

(** The body is decoded: the two setters, then [finally]. *)
Lemma decoded (w : World) (c : nat) (k : Call) (data : StarWarsApiResponse) :
  calls w !! c = Some k ->
  awaiting k = AwaitJson ->
  step w (JsonSettled c (Fulfilled data)) =
  with_calls (delete c (calls w))
    (update (setLoading false)
       (update (setCharacters (results data))
          (update (setPages {| previous := data_previous data;
                               next := data_next data |}) w))).
Proof.
  intros Hc Hk. cbn [step]. rewrite Hc, Hk. unfold handle, json_settled.
  rewrite finally_once.
  rewrite commit_unchanged; destruct w as [h [] ? ? ? ? ?]; reflexivity.
Qed.

Lemma failed_attempt_shown (c : nat) (f : Failure) (w : World) :
  shown (run (failed_attempt c f) w) = shown w.
Proof.
  destruct (run_shown (failed_attempt c f) w) as [H|(c' & d & Hin & _)]; [exact H|].
  exfalso. destruct f; cbn in Hin; intuition discriminate.
Qed.

(** The attempt that fails when no retry is left. *)
Lemma failed_attempt_exhausted (w : World) (c : nat) (page : option string) (a : Z)
    (f : Failure) (n m : string) (cause : option Z) :
  attempting c page a w ->
  thrown_by f = Some (JsError n m cause) ->
  transient (JsError n m cause) = true ->
  MAX_RETRIES <= a ->
  let w' := run (failed_attempt c f) w in
  error (hook w') = Some m /\
  loading (hook w') = false /\
  calls w' !! c = None /\
  requests (log w') = requests (log w) /\
  waits (log w') = waits (log w) /\
  backoff_timers w' = [] /\
  dismissals w' = (if truthy (Some m) then [3000] else []).
Proof.
  intros [Hm Ht Hc Hl He] Hf Htr Ha w'.
  set (k := {| cursor := page; attempts := a; awaiting := AwaitFetch |}) in *.
  assert (forall v k' e,
            mounted v = true -> calls v !! c = Some k' -> attempts k' = a ->
            fails_with c k' e (JsError n m cause) ->
            timers v = [] -> error (hook v) = None ->
            requests (log v) = requests (log w) -> waits (log v) = waits (log w) ->
            let v' := step v e in
            error (hook v') = Some m /\ loading (hook v') = false /\
            calls v' !! c = None /\ requests (log v') = requests (log w) /\
            waits (log v') = waits (log w) /\ backoff_timers v' = [] /\
            dismissals v' = (if truthy (Some m) then [3000] else [])) as Hlast.
  { intros v k' e Hv Hk' Hak Hfail Htv Hev Hrv Hwv v'.
    destruct (exhausted_failure v c k' e n m cause Hv Hk' Hfail Htr)
      as (H1 & H2 & H3 & H4 & H5 & H6 & H7); [lia|].
    fold v' in H1, H2, H3, H4, H5, H6, H7.
    rewrite H1, H2, H3, H4, H5, H6, H7, Hrv, Hwv, Hev.
    rewrite decide_False by discriminate.
    unfold backoff_timers. rewrite Htv. now repeat split. }
  destruct f as [e|resp|resp e]; cbn [failed_attempt run fold_left] in w'; cbn in Hf.
  - injection Hf as ->. apply (Hlast w k); try assumption; try reflexivity.
    now constructor.
  - destruct (ok resp) eqn:Hok; [discriminate|].
    apply (Hlast w k); try assumption; try reflexivity.
    constructor; [reflexivity|]. cbn. now rewrite Hok.
  - destruct (ok resp) eqn:Hok; [|discriminate]. injection Hf as ->.
    subst w'. rewrite (ok_response w c k resp Hc eq_refl Hok).
    apply (Hlast _ {| cursor := page; attempts := a; awaiting := AwaitJson |});
      try reflexivity; try assumption.
    + apply lookup_insert_eq.
    + now constructor.
Qed.

(** X4: A sequence gets over transient failures: after at most three failed
    attempts of any kind (no response, a status that is neither 2xx nor
    4xx, a body that does not decode), each followed by its back-off, a
    good response ends the sequence with its page on display, [error]
    [null], [loading] false, no timer armed, one request per attempt and
    the waits 1000, 2000, 4000 ms in this order. *)
Theorem recovers_after_transient_failures (w : World) (c : nat) (u : string)
    (l : list Effect) (fs : list Failure) (resp : Response)
    (data : StarWarsApiResponse) :
  sequence_start w c u l ->
  timers w = [] ->
  Forall retried fs ->
  (length fs <= 3)%nat ->
  ok resp = true ->
  let w' := run (retries c 0 fs ++
                 [FetchSettled c (Fulfilled resp); JsonSettled c (Fulfilled data)]) w in
  shown w' = page_of data /\
  error (hook w') = None /\
  loading (hook w') = false /\
  calls w' !! c = None /\
  timers w' = [] /\
  requests (log w') = requests l ++ replicate (S (length fs)) u /\
  waits (log w') = waits l ++ backoffs 0 (length fs).
Proof.
  intros Hs Ht Hfs Hlen Hok w'.
  destruct (sequence_start_attempting w c u l Hs Ht) as (page & Hu & Hat & Hl).
  destruct (retries_run c page fs 0 w Hat Hfs) as ([Hm1 Ht1 Hc1 Hl1 He1] & Hr & Hw & _);
    [lia|unfold MAX_RETRIES; lia|].
  subst w'. rewrite run_app. set (v := run (retries c 0 fs) w) in *.
  cbn [run fold_left].
  rewrite (ok_response v c _ resp Hc1 eq_refl Hok).
  rewrite (decoded _ c {| cursor := page; attempts := 0 + Z.of_nat (length fs);
                          awaiting := AwaitJson |} data);
    [|apply lookup_insert_eq|reflexivity].
  clearbody v. world v. unfold shown. wsimpl.
  rewrite Hr, Hw, Hl, requests_app, waits_app. cbn.
  rewrite app_nil_r, <- app_assoc.
  repeat split; try assumption. apply lookup_delete_eq.
Qed.

Lemma recovers_after_transient_failures_witness :
  let fs := [NetworkFailure (networkError "Failed to fetch");
             BadStatus {| status := 502; statusText := "Bad Gateway" |}] in
  let luke := {| url := "u1"; name := "Luke"; height := "172";
                 birth_year := "19BBY"; eye_color := "blue" |} in
  let data := {| data_previous := None; data_next := Some "p2"; results := [luke] |} in
  let w' := run (retries 0%nat 0 fs ++
                 [FetchSettled 0%nat (Fulfilled {| status := 200; statusText := "OK" |});
                  JsonSettled 0%nat (Fulfilled data)]) mount in
  shown w' = page_of data /\
  error (hook w') = None /\
  loading (hook w') = false /\
  calls w' !! 0%nat = None /\
  timers w' = [] /\
  requests (log w') = [default_url; default_url; default_url] /\
  waits (log w') = [1000; 2000].
Proof.
  intros fs luke data.
  apply (recovers_after_transient_failures mount 0%nat default_url [] fs
           {| status := 200; statusText := "OK" |} data).
  - apply start_on_mount.
  - reflexivity.
  - repeat constructor; eexists; split; reflexivity.
  - cbn. lia.
  - reflexivity.
Defined.

(** X5: When four attempts in a row fail transiently, of whatever kinds, the
    sequence ends after the fourth: there are four requests and the waits
    1000, 2000 and 4000 ms, the message surfaced is that of the last
    failure and not of an earlier one, [loading] is false, and the
    auto-dismiss timer is armed unless that message is empty. *)
Theorem exhaustion_surfaces_last_failure (w : World) (c : nat) (u : string)
    (l : list Effect) (fs : list Failure) (f : Failure)
    (n m : string) (cause : option Z) :
  sequence_start w c u l ->
  timers w = [] ->
  Forall retried fs ->
  length fs = 3%nat ->
  thrown_by f = Some (JsError n m cause) ->
  transient (JsError n m cause) = true ->
  let w' := run (retries c 0 fs ++ failed_attempt c f) w in
  error (hook w') = Some m /\
  loading (hook w') = false /\
  calls w' !! c = None /\
  requests (log w') = requests l ++ [u; u; u; u] /\
  waits (log w') = waits l ++ [1000; 2000; 4000] /\
  backoff_timers w' = [] /\
  dismissals w' = (if truthy (Some m) then [3000] else []).
Proof.
  intros Hs Ht Hfs Hlen Hf Htr w'.
  destruct (sequence_start_attempting w c u l Hs Ht) as (page & Hu & Hat & Hl).
  destruct (retries_run c page fs 0 w Hat Hfs) as (Hat1 & Hr & Hw & _);
    [lia|unfold MAX_RETRIES; lia|].
  subst w'. rewrite run_app. set (v := run (retries c 0 fs) w) in *.
  rewrite Hlen in Hat1, Hr, Hw.
  destruct (failed_attempt_exhausted v c page (0 + Z.of_nat 3) f n m cause Hat1 Hf Htr)
    as (H1 & H2 & H3 & H4 & H5 & H6 & H7); [unfold MAX_RETRIES; lia|].
  rewrite H1, H2, H3, H4, H5, H6, H7, Hr, Hw, Hl, requests_app, waits_app, Hu.
  cbn. rewrite app_nil_r, <- app_assoc. now repeat split.
Qed.

Lemma exhaustion_surfaces_last_failure_witness :
  let fs := [NetworkFailure (networkError "Failed to fetch");
             BadStatus {| status := 503; statusText := "Service Unavailable" |};
             BadBody {| status := 200; statusText := "OK" |}
               (JsError "SyntaxError" "Unexpected token < in JSON" None)] in
  let f := BadStatus {| status := 500; statusText := "Internal Server Error" |} in
  let w' := run (retries 0%nat 0 fs ++ failed_attempt 0%nat f) mount in
  error (hook w') = Some "500: Internal Server Error" /\
  loading (hook w') = false /\
  calls w' !! 0%nat = None /\
  requests (log w') = [default_url; default_url; default_url; default_url] /\
  waits (log w') = [1000; 2000; 4000] /\
  backoff_timers w' = [] /\
  dismissals w' = [3000].
Proof.
  intros fs f.
  apply (exhaustion_surfaces_last_failure mount 0%nat default_url [] fs f
           "Error" "500: Internal Server Error" (Some 500)).
  - apply start_on_mount.
  - reflexivity.
  - repeat constructor; eexists; split; reflexivity.
  - reflexivity.
  - reflexivity.
  - reflexivity.
Defined.

(** X6: A status in [[400, 500)] ends the sequence at whichever attempt it
    comes: after [n <= 3] transient failures and their back-offs, the
    4xx answer is surfaced at once, with [n + 1] requests made, no further
    wait started and no back-off timer left. *)
Theorem client_error_ends_retries (w : World) (c : nat) (u : string)
    (l : list Effect) (fs : list Failure) (resp : Response) :
  sequence_start w c u l ->
  timers w = [] ->
  Forall retried fs ->
  (length fs <= 3)%nat ->
  400 <= status resp < 500 ->
  let w' := run (retries c 0 fs ++ [FetchSettled c (Fulfilled resp)]) w in
  error (hook w') = Some (show (status resp) +:+ ": " +:+ statusText resp) /\
  loading (hook w') = false /\
  calls w' !! c = None /\
  requests (log w') = requests l ++ replicate (S (length fs)) u /\
  waits (log w') = waits l ++ backoffs 0 (length fs) /\
  backoff_timers w' = [].
Proof.
  intros Hs Ht Hfs Hlen Hr4 w'.
  destruct (sequence_start_attempting w c u l Hs Ht) as (page & Hu & Hat & Hl).
  destruct (retries_run c page fs 0 w Hat Hfs) as ([Hm1 Ht1 Hc1 Hl1 He1] & Hr & Hw & _);
    [lia|unfold MAX_RETRIES; lia|].
  subst w'. rewrite run_app. set (v := run (retries c 0 fs) w) in *.
  cbn [run fold_left].
  destruct (client_error_terminal v c _ resp Hm1 Hc1 eq_refl Hr4)
    as (H1 & H2 & H3 & H4 & H5 & H6).
  rewrite H1, H2, H3, H4, H5, H6, Hr, Hw, Hl, requests_app, waits_app, Hu.
  unfold backoff_timers. rewrite Ht1.
  cbn. rewrite app_nil_r, <- app_assoc. now repeat split.
Qed.

Lemma client_error_ends_retries_witness :
  let fs := [BadStatus {| status := 503; statusText := "Service Unavailable" |};
             NetworkFailure (networkError "Failed to fetch")] in
  let w' := run (retries 0%nat 0 fs ++
                 [FetchSettled 0%nat
                    (Fulfilled {| status := 429; statusText := "Too Many Requests" |})])
              mount in
  error (hook w') = Some "429: Too Many Requests" /\
  loading (hook w') = false /\
  calls w' !! 0%nat = None /\
  requests (log w') = [default_url; default_url; default_url] /\
  waits (log w') = [1000; 2000] /\
  backoff_timers w' = [].
Proof.
  intros fs.
  apply (client_error_ends_retries mount 0%nat default_url [] fs
           {| status := 429; statusText := "Too Many Requests" |}).
  - apply start_on_mount.
  - reflexivity.
  - repeat constructor; eexists; split; reflexivity.
  - cbn. lia.
  - cbn. lia.
Defined.

(** ** The requests of one controller *)

Lemma fetch_log_app (l1 l2 : list Effect) :
  fetch_log (l1 ++ l2) = fetch_log l1 ++ fetch_log l2.
Proof. apply omap_app. Qed.

Lemma sent_fetch_log (c : nat) (l l' : list Effect) :
  fetch_log l' = fetch_log l -> sent c l' = sent c l.
Proof. unfold sent. now intros ->. Qed.

Lemma sent_snoc (c c' : nat) (u : string) (l l' : list Effect) :
  fetch_log l' = fetch_log l ++ [(c', u)] ->
  sent c l' = if decide (c' = c) then sent c l ++ [u] else sent c l.
Proof.
  unfold sent. intros ->. rewrite filter_app, fmap_app.
  rewrite filter_cons, filter_nil. cbn [fst].
  destruct (decide (c' = c)); cbn; [reflexivity|apply app_nil_r].
Qed.

Lemma requests_fetch_log (l : list Effect) : requests l = snd <$> fetch_log l.
Proof.
  unfold requests, fetch_log. induction l as [|e l IH]; [reflexivity|].
  destruct e; cbn; now rewrite ?IH.
Qed.

Lemma bounded_mount : bounded mount.
Proof.
  intros c. destruct c as [|c].
  - split; [exists default_url, 1%nat; split; [reflexivity|lia]|].
    split; [|cbn; lia].
    intros k Hk. change (calls mount) with
      (<[0%nat := {| cursor := None; attempts := 0; awaiting := AwaitFetch |}]>
         (∅ : gmap nat Call)) in Hk.
    rewrite lookup_insert_eq in Hk. injection Hk as <-. cbn.
    unfold MAX_RETRIES. repeat split; try lia; try discriminate.
  - assert (calls mount !! S c = None) as Hn.
    { change (calls mount) with
        (<[0%nat := {| cursor := None; attempts := 0; awaiting := AwaitFetch |}]>
           (∅ : gmap nat Call)).
      rewrite lookup_insert_ne by discriminate. apply lookup_empty. }
    split; [exists default_url, 0%nat; split; [reflexivity|lia]|].
    split; [intros k Hk; congruence|]. intros _. split; [exact Hn|reflexivity].
Qed.

Lemma bounded_move (P : option string -> Prop) (w w' : World) :
  core_move P w w' -> bounded w -> bounded w'.
Proof.
  intros Hmove Hb c0. destruct (Hb c0) as (Hany & Hcall & Hnew).
  destruct Hmove as [Hcs [Hctl _] Hlog|c k a Hk Ha Hcs [Hctl _] Hlog
                    |c Hcs [Hctl _] Hlog|c k Hk Hd Hcs [Hctl _] Hlog
                    |page _ _ _ _ Hctl Hcs Hlog|_ _ _ Hctl Hcs Hlog].
  - rewrite Hcs, Hctl, (sent_fetch_log c0 _ _ Hlog).
    exact (conj Hany (conj Hcall Hnew)).
  - rewrite Hcs, Hctl, (sent_fetch_log c0 _ _ Hlog).
    split; [exact Hany|]. split; [|intros Hlt; rewrite lookup_insert_ne;
      [now apply Hnew|]; intros ->; destruct (Hb c0) as (_ & Hc0 & _);
      destruct (Hc0 k Hk) as (_ & _ & Hle & _); lia].
    intros k'. destruct (decide (c = c0)) as [->|Hne].
    + rewrite lookup_insert_eq. intros [= <-]. cbn.
      destruct (Hcall k Hk) as (H1 & _ & H3 & H4). now repeat split.
    + rewrite lookup_insert_ne by exact Hne. apply Hcall.
  - rewrite Hcs, Hctl, (sent_fetch_log c0 _ _ Hlog).
    split; [exact Hany|]. split.
    + intros k'. destruct (decide (c = c0)) as [->|Hne].
      * now rewrite lookup_delete_eq.
      * rewrite lookup_delete_ne by exact Hne. apply Hcall.
    + intros Hlt. destruct (Hnew Hlt) as [Hn Hs]. split; [|exact Hs].
      destruct (decide (c = c0)) as [->|Hne];
        [apply lookup_delete_eq|now rewrite lookup_delete_ne].
  - destruct (Hb c) as (_ & Hc & _). destruct (Hc k Hk) as (Hr & Hlt & Hle & Hs).
    specialize (Hlt Hd).
    rewrite Hcs, Hctl, (sent_snoc c0 c _ _ _ Hlog).
    destruct (decide (c = c0)) as [->|Hne].
    + assert (sent c0 (log w) ++ [request_url (cursor k)] =
              replicate (S (Z.to_nat (attempts k + 1))) (request_url (cursor k))) as Heq.
      { rewrite Hs. replace (Z.to_nat (attempts k + 1)) with (S (Z.to_nat (attempts k)))
          by lia. now rewrite <- replicate_S_end. }
      split; [exists (request_url (cursor k)), (S (Z.to_nat (attempts k + 1)));
              split; [exact Heq|unfold MAX_RETRIES in *; lia]|].
      split; [|intros Hgt; lia].
      intros k'. rewrite lookup_insert_eq. intros [= <-]. cbn.
      unfold MAX_RETRIES in *. repeat split; try lia; try discriminate. exact Heq.
    + split; [exact Hany|]. split.
      * intros k'. rewrite lookup_insert_ne by exact Hne. apply Hcall.
      * intros Hgt. rewrite lookup_insert_ne by exact Hne. now apply Hnew.
  - rewrite Hcs, Hctl, (sent_snoc c0 (S (controller w)) _ _ _ Hlog).
    destruct (Hb (S (controller w))) as (_ & _ & Hfresh).
    destruct Hfresh as [Hn Hs]; [lia|].
    destruct (decide (S (controller w) = c0)) as [<-|Hne].
    + rewrite Hs. cbn [app].
      split; [exists (request_url page), 1%nat; split; [reflexivity|lia]|].
      split; [|intros Hgt; lia].
      intros k'. rewrite lookup_insert_eq. intros [= <-]. cbn.
      unfold MAX_RETRIES. repeat split; try lia; try discriminate.
    + split; [exact Hany|]. split.
      * intros k' Hk'. rewrite lookup_insert_ne in Hk' by exact Hne.
        destruct (Hcall k' Hk') as (H1 & H2 & H3 & H4). repeat split; try assumption; lia.
      * intros Hgt. rewrite lookup_insert_ne by exact Hne. apply Hnew. lia.
  - rewrite Hcs, Hctl, (sent_fetch_log c0 _ _ Hlog).
    exact (conj Hany (conj Hcall Hnew)).
Qed.

(** *** Every event is a chain of such moves *)

Lemma fetch_log_error_effect (w : World) :
  fetch_log (log (error_effect (error_cleanup w))) = fetch_log (log w).
Proof.
  unfold error_effect, error_cleanup. destruct w as [h mt ? ? ? ? lg]. cbn.
  destruct (truthy (error h)); cbn; [|reflexivity].
  rewrite fetch_log_app. apply app_nil_r.
Qed.

Lemma commit_quiet (P : option string -> Prop) (prev : Hook) (w : World) :
  currentPage (hook w) = currentPage prev -> core_move P w (commit prev w).
Proof.
  intros Hp. pose proof (commit_agree prev w Hp) as [_ Hm Hc Ha Hcs _ _ _].
  apply move_quiet; [exact Hcs|now split|].
  unfold commit. destruct (mounted w); [|reflexivity].
  destruct (decide (currentPage (hook w) = currentPage prev)); [|contradiction].
  destruct (decide _); [reflexivity|apply fetch_log_error_effect].
Qed.

Lemma handle_moves (P : option string -> Prop) (f : World -> World) (w : World) :
  core_move P w (f w) ->
  currentPage (hook (f w)) = currentPage (hook w) ->
  rtc (core_move P) w (handle f w).
Proof.
  intros Hf Hp. apply (rtc_l _ _ (f w)); [exact Hf|].
  apply rtc_once. now apply commit_quiet.
Qed.

Lemma update_quiet (P : option string -> Prop) (f : Hook -> Hook) (w : World) :
  core_move P w (update f w).
Proof. apply move_quiet; destruct w as [h [] ? ? ? ? ?]; now repeat split. Qed.

Lemma finally_finishes (P : option string -> Prop) (c : nat) (k : Call)
    (f : Hook -> Hook) (w : World) :
  core_move P w (finally_ c k (update f w)).
Proof.
  apply (move_finish _ _ _ c); rewrite finally_once;
    destruct w as [h [] ? ? ? ? ?]; now repeat split.
Qed.

Lemma finally_finishes' (P : option string -> Prop) (c : nat) (k : Call) (w : World) :
  core_move P w (finally_ c k w).
Proof.
  apply (move_finish _ _ _ c); rewrite finally_once;
    destruct w as [h [] ? ? ? ? ?]; now repeat split.
Qed.

Lemma catch_move (P : option string -> Prop) (c : nat) (k : Call) (err : Thrown)
    (w : World) :
  calls w !! c = Some k -> core_move P w (catch_ c k err w).
Proof.
  intros Hk. unfold catch_. destruct err as [n m cause|]; [|apply finally_finishes'].
  destruct (negb _); [|apply finally_finishes'].
  destruct (client_error cause); [apply finally_finishes|].
  destruct (MAX_RETRIES <=? attempts k) eqn:Hmax; [apply finally_finishes|].
  apply Z.leb_gt in Hmax.
  apply (move_await _ _ _ c k AwaitDelay); try easy.
  destruct w as [h mt ? ? ? ? lg]. cbn. rewrite fetch_log_app. apply app_nil_r.
Qed.

Lemma fetch_settled_move (P : option string -> Prop) (c : nat) (k : Call)
    (r : Settled Response) (w : World) :
  calls w !! c = Some k -> core_move P w (fetch_settled c k r w).
Proof.
  intros Hk. destruct r as [resp|err]; unfold fetch_settled; [|now apply catch_move].
  destruct (ok resp); [|now apply catch_move].
  apply (move_await _ _ _ c k AwaitJson); try easy.
Qed.

Lemma json_settled_move (P : option string -> Prop) (c : nat) (k : Call)
    (r : Settled StarWarsApiResponse) (w : World) :
  calls w !! c = Some k -> core_move P w (json_settled c k r w).
Proof.
  intros Hk. destruct r as [data|err]; unfold json_settled; [|now apply catch_move].
  apply (move_finish _ _ _ c); rewrite finally_once;
    destruct w as [h [] ? ? ? ? ?]; now repeat split.
Qed.

Lemma delay_elapsed_move (P : option string -> Prop) (c : nat) (k : Call) (w : World) :
  calls w !! c = Some k ->
  awaiting k = AwaitDelay ->
  core_move P w (delay_elapsed c k w).
Proof.
  intros Hk Hd. apply (move_retry _ _ _ c k Hk Hd);
    destruct w as [h [] ? ? ? ? lg]; cbn; try reflexivity; try (now repeat split);
    apply fetch_log_app.
Qed.

Lemma fire_moves (P : option string -> Prop) (k : TimerKind) (w : World) :
  rtc (core_move P) w (fire k w).
Proof.
  destruct k as [|c]; cbn [fire].
  - apply handle_moves; [apply update_quiet|now apply update_page].
  - destruct (calls w !! c) as [call|] eqn:Hc; [|reflexivity].
    destruct (awaiting call) eqn:Ha; try reflexivity.
    apply handle_moves; [now apply delay_elapsed_move|apply fetchData_enter_page].
Qed.

Lemma elapse_moves (P : option string -> Prop) (fuel : nat) (dt : Z) (w : World) :
  rtc (core_move P) w (elapse fuel dt w).
Proof.
  revert dt w. induction fuel as [|n IH]; intros dt w; cbn [elapse].
  - apply rtc_once. now apply move_quiet.
  - destruct (due dt (timers w)) as [t|]; [|apply rtc_once; now apply move_quiet].
    etrans; [|apply IH].
    apply (rtc_l _ _ (clearTimeout (callback t) (age (remaining t) w)));
      [now apply move_quiet|apply fire_moves].
Qed.

Lemma step_moves (w : World) (e : Event) :
  rtc (core_move (started_by e)) w (step w e).
Proof.
  destruct e as [page|c r|c r|dt|]; cbn [step].
  - destruct (mounted w) eqn:Hm.
    + destruct page as [s|];
        [|rewrite (handle_nothing (setPage None) w eq_refl); reflexivity].
      destruct (decide (s = "")) as [->|Hs];
        [rewrite (handle_nothing (setPage (Some "")) w eq_refl); reflexivity|].
      destruct (decide (currentPage (hook w) = Some s)) as [Hp|Hp];
        [rewrite same_cursor_idle by exact Hp; reflexivity|].
      destruct (setPage_changes_cursor w s Hm Hs Hp)
        as (_ & Hm' & Hctl & Hab & Hcs & Hl & _).
      cbn [step] in Hm', Hctl, Hab, Hcs, Hl. apply rtc_once.
      apply (move_start _ _ _ (Some s));
        [now exists s|exact Hm|exact Hm'|exact Hab|exact Hctl|exact Hcs|].
      rewrite Hl, !fetch_log_app, (request_url_some s Hs). reflexivity.
    + rewrite handle_nothing; [reflexivity|].
      unfold setPage. destruct (negb _); [reflexivity|now apply unmounted_update].
  - destruct (calls w !! c) as [k|] eqn:Hc; [|reflexivity].
    destruct (awaiting k); try reflexivity.
    apply handle_moves; [now apply fetch_settled_move|apply fetch_settled_page].
  - destruct (calls w !! c) as [k|] eqn:Hc; [|reflexivity].
    destruct (awaiting k); try reflexivity.
    apply handle_moves; [now apply json_settled_move|apply json_settled_page].
  - destruct (0 <=? dt); [apply elapse_moves|reflexivity].
  - unfold unmount. destruct (mounted w) eqn:Hm; [|reflexivity].
    apply rtc_once. apply move_unmount; try easy.
    destruct w as [h mt ? ? ? ? lg]. cbn. rewrite fetch_log_app. apply app_nil_r.
Qed.

Lemma bounded_step (w : World) (e : Event) : bounded w -> bounded (step w e).
Proof.
  intros Hb. induction (step_moves w e) as [|x y z Hxy _ IH]; [exact Hb|].
  apply IH. now apply (bounded_move _ x y Hxy).
Qed.

Lemma bounded_run (es : list Event) (w : World) : bounded w -> bounded (run es w).
Proof.
  revert w. induction es as [|e es IH]; intros w Hb; [exact Hb|].
  apply IH, bounded_step, Hb.
Qed.

(** X7: Whatever the server answers and however the events interleave, no
    controller, that is no logical fetch sequence, ever makes more than
    [MAX_RETRIES + 1] = 4 requests, and all its requests go to the same
    target; while its chain is suspended, the attempt counter is between 0
    and 3 and one less than the number of its requests. *)
Theorem retries_are_bounded (es : list Event) (c : nat) :
  let w := run es mount in
  exists u n,
    sent c (log w) = replicate n u /\
    (n <= 4)%nat /\
    forall k, calls w !! c = Some k ->
      0 <= attempts k <= 3 /\
      n = S (Z.to_nat (attempts k)) /\
      u = request_url (cursor k).
Proof.
  intros w. destruct (bounded_run es mount bounded_mount c) as ((u & n & Hs & Hn) & Hcall & _).
  fold w in Hs, Hcall.
  destruct (calls w !! c) as [k|] eqn:Hk.
  - destruct (Hcall k eq_refl) as (Ha & _ & _ & Hsk).
    exists (request_url (cursor k)), (S (Z.to_nat (attempts k))).
    split; [exact Hsk|]. unfold MAX_RETRIES in Ha. split; [lia|].
    intros k' [= <-]. now repeat split.
  - exists u, n. split; [exact Hs|]. split; [exact Hn|]. intros k' Hk'. discriminate.
Qed.

(** ** Which sequence is alive *)

Lemma supersession_move (P : option string -> Prop) (w w' : World) :
  core_move P w w' -> supersession w -> supersession w'.
Proof.
  intros Hmove Hs c.
  destruct Hmove as [_ (Hc & Ha & Hm) _|? ? ? _ _ _ (Hc & Ha & Hm) _
                    |? _ (Hc & Ha & Hm) _|? ? _ _ _ (Hc & Ha & Hm) _
                    |? _ Hm Hm' Ha Hc _ _|Hm Hm' Ha Hc _ _];
    try (rewrite Hc, Ha, Hm; apply Hs).
  - rewrite Ha, Hc, Hm', elem_of_cons, (Hs c), Hm.
    split; [intros [->|[Hlt|[_ Hf]]]; [left; lia|left; lia|discriminate]|].
    intros [Hlt|[_ Hf]]; [|discriminate].
    destruct (decide (c = controller w)); [now left|right; left; lia].
  - rewrite Ha, Hc, Hm', elem_of_cons, (Hs c), Hm.
    split; [intros [->|[Hlt|[_ Hf]]]; [now right|now left|discriminate]|].
    intros [Hlt|[-> _]]; [right; now left|now left].
Qed.

Lemma supersession_run (es : list Event) (w : World) :
  supersession w -> supersession (run es w).
Proof.
  revert w. induction es as [|e es IH]; intros w Hs; [exact Hs|].
  apply IH. induction (step_moves w e) as [|x y z Hxy _ IHm]; [exact Hs|].
  apply IHm. now apply (supersession_move _ x y Hxy).
Qed.

Lemma supersession_mount : supersession mount.
Proof.
  intros c. cbn. split; [intros H; now apply elem_of_nil in H|].
  intros [H|[_ H]]; [lia|discriminate].
Qed.

(** X8: At every moment exactly the superseded controllers are aborted: each
    [setPage] that changes the cursor, and the unmount, abort the controller
    of the running effect, and nothing else aborts or revives one.  So a
    chain whose signal is not aborted belongs to the current controller of
    a mounted component: at most one sequence is alive. *)
Theorem one_live_sequence (es : list Event) (c : nat) :
  let w := run es mount in
  (c ∈ aborted w <->
   ((c < controller w)%nat \/ (c = controller w /\ mounted w = false))) /\
  (forall k, calls w !! c = Some k -> c ∉ aborted w ->
             c = controller w /\ mounted w = true).
Proof.
  intros w.
  pose proof (supersession_run es mount supersession_mount c) as Hs. fold w in Hs.
  split; [exact Hs|]. intros k Hk Hna.
  destruct (bounded_run es mount bounded_mount c) as (_ & Hcall & _). fold w in Hcall.
  destruct (Hcall k Hk) as (_ & _ & Hle & _).
  destruct (decide (c = controller w)) as [->|Hne].
  - split; [reflexivity|]. destruct (mounted w) eqn:Hm; [reflexivity|].
    exfalso. apply Hna, Hs. now right.
  - exfalso. apply Hna, Hs. left. lia.
Qed.

(** ** Where the requests go *)

Lemma targets_ok_move (P A : option string -> Prop) (w w' : World) :
  (forall p, P p -> A p) ->
  core_move P w w' -> targets_ok A w -> targets_ok A w'.
Proof.
  intros HPA Hmove [Hcalls Hlog].
  assert (forall c k (k' : Call) c0 k0,
            calls w !! c = Some k -> cursor k' = cursor k ->
            <[c := k']> (calls w) !! c0 = Some k0 -> A (cursor k0)) as Hins.
  { intros c k k' c0 k0 Hk Hcur. destruct (decide (c = c0)) as [->|Hne].
    - rewrite lookup_insert_eq. intros [= <-]. rewrite Hcur. now apply (Hcalls c0).
    - rewrite lookup_insert_ne by exact Hne. apply Hcalls. }
  destruct Hmove as [Hcs _ Hl|c k a Hk _ Hcs _ Hl|c Hcs _ Hl|c k Hk _ Hcs _ Hl
                    |page Hp _ _ _ _ Hcs Hl|_ _ _ _ Hcs Hl];
    split; rewrite ?Hcs, ?Hl; try assumption.
  - intros c0 k0. now apply (Hins c k).
  - intros c0 k0. destruct (decide (c = c0)) as [->|Hne];
      [now rewrite lookup_delete_eq|rewrite lookup_delete_ne by exact Hne; apply Hcalls].
  - intros c0 k0. now apply (Hins c k).
  - intros c0 u [Hin|Hin%list_elem_of_singleton]%elem_of_app; [now apply (Hlog c0)|].
    injection Hin as -> ->. exists (cursor k). split; [now apply (Hcalls c)|reflexivity].
  - intros c0 k0. destruct (decide (S (controller w) = c0)) as [<-|Hne].
    + rewrite lookup_insert_eq. intros [= <-]. now apply HPA.
    + rewrite lookup_insert_ne by exact Hne. apply Hcalls.
  - intros c0 u [Hin|Hin%list_elem_of_singleton]%elem_of_app; [now apply (Hlog c0)|].
    injection Hin as -> ->. exists page. split; [now apply HPA|reflexivity].
Qed.

Lemma targets_ok_weaken (A A' : option string -> Prop) (w : World) :
  (forall p, A p -> A' p) -> targets_ok A w -> targets_ok A' w.
Proof.
  intros HA [Hcalls Hlog]. split.
  - intros c k Hk. apply HA. now apply (Hcalls c).
  - intros c u Hin. destruct (Hlog c u Hin) as (p & Hp & ->). exists p. auto.
Qed.

Lemma targets_ok_run (es : list Event) : targets_ok (given es) (run es mount).
Proof.
  induction es as [|e es IH] using rev_ind.
  - split.
    + intros c k. change (calls (run [] mount)) with
        (<[0%nat := {| cursor := None; attempts := 0; awaiting := AwaitFetch |}]>
           (∅ : gmap nat Call)).
      destruct c as [|c]; [rewrite lookup_insert_eq; intros [= <-]; now left|].
      rewrite lookup_insert_ne by discriminate. now rewrite lookup_empty.
    + intros c u Hin. cbn in Hin. apply list_elem_of_singleton in Hin.
      injection Hin as -> ->. exists None. split; [now left|reflexivity].
  - rewrite run_app. cbn [run fold_left].
    assert (targets_ok (given (es ++ [e])) (run es mount)) as Hw.
    { apply (targets_ok_weaken (given es)); [|exact IH].
      intros p [->|(s & -> & Hs & Hin)]; [now left|right].
      exists s. repeat split; try assumption. apply in_or_app. now left. }
    clear IH.
    induction (step_moves (run es mount) e) as [|x y z Hxy _ IHm]; [exact Hw|].
    apply IHm. apply (targets_ok_move (started_by e) _ x y); [|exact Hxy|exact Hw].
    intros p (s & -> & Hs & ->). right. exists s. repeat split; try assumption.
    apply in_or_app. right. now left.
Qed.

(** X9: The controller never requests a target it was not given: every request
    ever made goes to the default root or to a non-empty token that was
    passed to [setPage]. *)
Theorem requests_go_where_asked (es : list Event) (u : string) :
  u ∈ requests (log (run es mount)) ->
  u = default_url \/ (u <> "" /\ In (SetPage (Some u)) es).
Proof.
  rewrite requests_fetch_log. intros ([c u'] & -> & Hin)%list_elem_of_fmap.
  destruct (targets_ok_run es) as [_ Hlog].
  destruct (Hlog c u' Hin) as (p & [->|(s & -> & Hs & Hes)] & ->); [now left|right].
  cbn [snd]. rewrite (request_url_some s Hs). now split.
Qed.

Lemma requests_go_where_asked_witness :
  let es := [FetchSettled 0%nat (Fulfilled {| status := 404; statusText := "Not Found" |});
             SetPage (Some "p2"); SetPage (Some "")] in
  "p2" ∈ requests (log (run es mount)) /\
  ("p2" = default_url \/ ("p2" <> "" /\ In (SetPage (Some "p2")) es)).
Proof.
  intros es.
  assert ("p2" ∈ requests (log (run es mount))) as Hin.
  { vm_compute. repeat constructor. }
  split; [exact Hin|]. apply (requests_go_where_asked es "p2" Hin).
Defined.

(** ** [loading] is never stuck *)

Lemma cause_same (w w' : World) :
  mounted w' = mounted w -> loading (hook w') = loading (hook w) ->
  calls w' = calls w ->
  loading_has_cause w -> loading_has_cause w'.
Proof. intros Hm Hl Hc Hw. unfold loading_has_cause. rewrite Hm, Hl, Hc. exact Hw. Qed.

Lemma cause_finally (c : nat) (k : Call) (w : World) :
  loading_has_cause (finally_ c k w).
Proof.
  rewrite finally_once. destruct w as [h [] ? ? ? ? ?]; intros Hm Hl; discriminate.
Qed.

Lemma cause_catch (c : nat) (k : Call) (err : Thrown) (w : World) :
  loading_has_cause (catch_ c k err w).
Proof.
  unfold catch_. destruct err as [n m cause|]; [|apply cause_finally].
  destruct (negb _); [|apply cause_finally].
  destruct (client_error cause); [apply cause_finally|].
  destruct (_ <=? _); [apply cause_finally|].
  intros _ _. apply insert_non_empty.
Qed.

Lemma cause_fetchData_enter (c : nat) (page : option string) (n : Z) (w : World) :
  loading_has_cause (fetchData_enter c page n w).
Proof. intros _ _. apply insert_non_empty. Qed.

Lemma cause_commit (prev : Hook) (w : World) :
  loading_has_cause w -> loading_has_cause (commit prev w).
Proof.
  intros Hw. unfold commit. destruct (mounted w) eqn:Hm; [|exact Hw].
  assert (forall v, loading_has_cause v ->
            loading_has_cause (if decide (error (hook v) = error prev) then v
                               else error_effect (error_cleanup v))) as Hv.
  { intros v Hq. destruct (decide _); [exact Hq|].
    destruct (error_effect_agree v) as [Hh Hmv _ _ Hc _ _ _].
    apply (cause_same v); [exact Hmv|now rewrite Hh|exact Hc|exact Hq]. }
  apply Hv. destruct (decide _); [exact Hw|apply cause_fetchData_enter].
Qed.

Lemma cause_update (f : Hook -> Hook) (w : World) :
  (forall h, loading (f h) = loading h) ->
  loading_has_cause w -> loading_has_cause (update f w).
Proof.
  intros Hf. apply cause_same; destruct w as [h [] ? ? ? ? ?]; cbn; auto.
Qed.

Lemma cause_fire (k : TimerKind) (w : World) :
  loading_has_cause w -> loading_has_cause (fire k w).
Proof.
  intros Hw. destruct k as [|c]; cbn [fire].
  - apply cause_commit, cause_update; [reflexivity|exact Hw].
  - destruct (calls w !! c) as [call|]; [|exact Hw].
    destruct (awaiting call); try exact Hw.
    apply cause_commit, cause_fetchData_enter.
Qed.

Lemma cause_elapse (fuel : nat) (dt : Z) (w : World) :
  loading_has_cause w -> loading_has_cause (elapse fuel dt w).
Proof.
  revert dt w. induction fuel as [|n IH]; intros dt w Hw; cbn [elapse];
    [exact Hw|].
  destruct (due dt (timers w)) as [t|]; [|exact Hw].
  apply IH, cause_fire. exact Hw.
Qed.

Lemma cause_step (w : World) (e : Event) :
  loading_has_cause w -> loading_has_cause (step w e).
Proof.
  intros Hw. destruct e as [page|c r|c r|dt|]; cbn [step].
  - apply cause_commit. unfold setPage. destruct (negb _); [exact Hw|].
    now apply cause_update.
  - destruct (calls w !! c) as [k|]; [|exact Hw].
    destruct (awaiting k); try exact Hw.
    apply cause_commit. destruct r as [resp|err]; unfold fetch_settled;
      [destruct (ok resp); [intros _ _; apply insert_non_empty|]|]; apply cause_catch.
  - destruct (calls w !! c) as [k|]; [|exact Hw].
    destruct (awaiting k); try exact Hw.
    apply cause_commit. destruct r as [data|err]; unfold json_settled;
      [apply cause_finally|apply cause_catch].
  - destruct (0 <=? dt); [now apply cause_elapse|exact Hw].
  - unfold unmount. destruct (mounted w); [|exact Hw]. intros Hm. discriminate.
Qed.

(** X10: [loading] is never left stuck at true: in every state the mounted
    controller can reach, once no chain of [fetchData] is suspended any
    more, whether it ended by success, failure or abort, [loading] is
    false. *)
Theorem loading_never_stuck (es : list Event) :
  let w := run es mount in
  mounted w = true -> calls w = ∅ -> loading (hook w) = false.
Proof.
  intros w Hm Hc.
  assert (loading_has_cause w) as Hw.
  { subst w. clear Hm Hc. induction es as [|e es IH] using rev_ind.
    - intros _ _. apply insert_non_empty.
    - rewrite run_app. now apply cause_step. }
  destruct (loading (hook w)) eqn:Hl; [|reflexivity].
  now destruct (Hw Hm Hl).
Qed.

Lemma loading_never_stuck_witness :
  let w := run [SetPage (Some "p2"); FetchSettled 0%nat (Rejected abortError);
                FetchSettled 1%nat (Rejected NotAnError)] mount in
  mounted w = true /\ calls w = ∅ /\ loading (hook w) = false.
Proof.
  intros w. split; [reflexivity|]. split; [reflexivity|].
  apply (loading_never_stuck
           [SetPage (Some "p2"); FetchSettled 0%nat (Rejected abortError);
            FetchSettled 1%nat (Rejected NotAnError)]); reflexivity.
Defined.

(** ** An error on display always has its timer *)

Lemma backoff_nonneg (n : Z) : 0 <= backoff n.
Proof. unfold backoff. pose proof (Z.pow_nonneg 2 n). lia. Qed.

Lemma nonneg_same (w w' : World) :
  timers w' = timers w -> timers_nonneg w -> timers_nonneg w'.
Proof. unfold timers_nonneg. now intros ->. Qed.

Lemma nonneg_setTimeout (k : TimerKind) (ms : Z) (w : World) :
  0 <= ms -> timers_nonneg w -> timers_nonneg (setTimeout k ms w).
Proof.
  intros Hms Hw t. cbn. intros [Ht|Ht%list_elem_of_singleton]%elem_of_app;
    [now apply Hw|now subst t].
Qed.

Lemma nonneg_clearTimeout (k : TimerKind) (w : World) :
  timers_nonneg w -> timers_nonneg (clearTimeout k w).
Proof. intros Hw t. cbn. intros [_ Ht]%list_elem_of_filter. now apply Hw. Qed.

Lemma nonneg_error_effect (w : World) :
  timers_nonneg w -> timers_nonneg (error_effect (error_cleanup w)).
Proof.
  intros Hw. unfold error_effect, error_cleanup.
  destruct (truthy _); [apply nonneg_setTimeout; [lia|]|]; now apply nonneg_clearTimeout.
Qed.

Lemma nonneg_commit (prev : Hook) (w : World) :
  timers_nonneg w -> timers_nonneg (commit prev w).
Proof.
  intros Hw. unfold commit. destruct (mounted w); [|exact Hw].
  assert (timers_nonneg (if decide (currentPage (hook w) = currentPage prev) then w
                         else fetch_effect (fetch_cleanup w))) as Hw1.
  { destruct (decide _); [exact Hw|]. apply (nonneg_same w); [|exact Hw].
    destruct w as [h [] ? ? ? ? ?]; reflexivity. }
  destruct (decide (error _ = error prev)); [exact Hw1|now apply nonneg_error_effect].
Qed.

Lemma nonneg_finally (c : nat) (k : Call) (w : World) :
  timers_nonneg w -> timers_nonneg (finally_ c k w).
Proof.
  apply nonneg_same. rewrite finally_once. destruct w as [h [] ? ? ? ? ?]; reflexivity.
Qed.

Lemma nonneg_update (f : Hook -> Hook) (w : World) :
  timers_nonneg w -> timers_nonneg (update f w).
Proof. apply nonneg_same. destruct w as [h [] ? ? ? ? ?]; reflexivity. Qed.

Lemma nonneg_catch (c : nat) (k : Call) (err : Thrown) (w : World) :
  timers_nonneg w -> timers_nonneg (catch_ c k err w).
Proof.
  intros Hw. unfold catch_. destruct err as [n m cause|]; [|now apply nonneg_finally].
  destruct (negb _); [|now apply nonneg_finally].
  destruct (client_error cause); [now apply nonneg_finally, nonneg_update|].
  destruct (_ <=? _); [now apply nonneg_finally, nonneg_update|].
  change (timers_nonneg (setTimeout (Backoff c) (backoff (attempts k)) w)).
  apply nonneg_setTimeout; [apply backoff_nonneg|exact Hw].
Qed.

Lemma nonneg_fetchData_enter (c : nat) (page : option string) (n : Z) (w : World) :
  timers_nonneg w -> timers_nonneg (fetchData_enter c page n w).
Proof. apply nonneg_same. destruct w as [h [] ? ? ? ? ?]; reflexivity. Qed.

Lemma nonneg_fire (k : TimerKind) (w : World) :
  timers_nonneg w -> timers_nonneg (fire k w).
Proof.
  intros Hw. destruct k as [|c]; cbn [fire].
  - now apply nonneg_commit, nonneg_update.
  - destruct (calls w !! c) as [call|]; [|exact Hw].
    destruct (awaiting call); try exact Hw.
    now apply nonneg_commit, nonneg_fetchData_enter.
Qed.

Lemma has_timer_commit (prev : Hook) (w : World) :
  (error (hook w) = error prev -> error_has_timer w) ->
  error_has_timer (commit prev w).
Proof.
  intros Hw. unfold commit. destruct (mounted w) eqn:Hm;
    [|intros Hm'; congruence].
  assert (forall v, mounted v = true ->
            error_has_timer (error_effect (error_cleanup v))) as Hfresh.
  { intros v Hv _. rewrite (agree_hook _ _ (error_effect_agree v)),
      error_effect_dismissals. intros ->. exists 3000. split; [reflexivity|lia]. }
  destruct (decide (currentPage (hook w) = currentPage prev)).
  - destruct (decide (error (hook w) = error prev)); [now apply Hw|now apply Hfresh].
  - destruct (decide _) as [Heq|Hne].
    + intros _. destruct w as [h mt ? ? ? ? ?]. cbn in Hm. subst mt. cbn. discriminate.
    + apply Hfresh. now rewrite mounted_fetch_effect.
Qed.

Lemma has_timer_handle (f : World -> World) (w : World) :
  spares_dismiss f -> error_has_timer w -> error_has_timer (handle f w).
Proof.
  intros Hf Hw. apply has_timer_commit. intros Heq.
  destruct (Hf w) as [Hm Hd]. unfold error_has_timer. now rewrite Hm, Hd, Heq.
Qed.

Lemma has_timer_fire (k : TimerKind) (w : World) :
  error_has_timer w -> error_has_timer (fire k w).
Proof.
  intros Hw. destruct k as [|c]; cbn [fire].
  - apply has_timer_handle; [apply spares_update|exact Hw].
  - destruct (calls w !! c) as [call|]; [|exact Hw].
    destruct (awaiting call); try exact Hw.
    apply has_timer_handle; [apply spares_fetchData_enter|exact Hw].
Qed.

(** One turn of the loop of [elapse]. *)
Lemma has_timer_turn (t : Timer) (w : World) :
  t ∈ timers w ->
  (forall u, u ∈ timers w -> remaining t <= remaining u) ->
  timers_nonneg w -> error_has_timer w ->
  let v := fire (callback t) (clearTimeout (callback t) (age (remaining t) w)) in
  timers_nonneg v /\ error_has_timer v.
Proof.
  intros Hin Hmin Hn Hk v.
  assert (timers_nonneg (age (remaining t) w)) as Hn0.
  { intros u. cbn. intros (u0 & -> & Hu0)%list_elem_of_fmap. cbn.
    specialize (Hmin u0 Hu0). lia. }
  assert (error_has_timer (age (remaining t) w)) as Hk0.
  { intros Hm Ht. destruct (Hk Hm Ht) as (r & Hr & Hle).
    exists (r - remaining t). rewrite dismissals_age, Hr. split; [reflexivity|].
    specialize (Hn t Hin). lia. }
  split; [subst v; now apply nonneg_fire, nonneg_clearTimeout|].
  subst v. destruct (callback t) as [|c].
  - intros Hm Ht. rewrite mounted_fire in Hm. rewrite fire_dismiss in Ht by exact Hm.
    discriminate.
  - apply has_timer_fire. intros Hm Ht. rewrite dismissals_clear_backoff.
    now apply Hk0.
Qed.

Lemma has_timer_elapse (fuel : nat) (dt : Z) (w : World) :
  0 <= dt ->
  (length (timers w) <= fuel)%nat ->
  timers_nonneg w -> error_has_timer w ->
  timers_nonneg (elapse fuel dt w) /\ error_has_timer (elapse fuel dt w).
Proof.
  revert dt w. induction fuel as [|n IH]; intros dt w Hdt Hlen Hn Hk.
  - destruct (timers w) eqn:Hts; [|cbn in Hlen; lia]. cbn [elapse]. split.
    + intros t. cbn. rewrite Hts. intros Ht. now apply elem_of_nil in Ht.
    + intros Hm Ht. destruct (Hk Hm Ht) as (r & Hr & _).
      unfold dismissals in Hr. now rewrite Hts in Hr.
  - cbn [elapse]. destruct (due dt (timers w)) as [t|] eqn:Hd.
    + destruct (due_some _ _ _ Hd) as (Hin & Hle & Hmin).
      destruct (has_timer_turn t w Hin Hmin Hn Hk) as [Hn' Hk'].
      apply IH; try assumption; [lia|].
      pose proof (elapse_turn_shorter t w Hin). lia.
    + pose proof (due_none _ _ Hd) as Hall. split.
      * intros u. cbn. intros (u0 & -> & Hu0)%list_elem_of_fmap. cbn.
        specialize (Hall u0 Hu0). lia.
      * intros Hm Ht. destruct (Hk Hm Ht) as (r & Hr & Hrle).
        exists (r - dt). rewrite dismissals_age, Hr. split; [reflexivity|lia].
Qed.

Lemma has_timer_step (w : World) (e : Event) :
  timers_nonneg w -> error_has_timer w ->
  timers_nonneg (step w e) /\ error_has_timer (step w e).
Proof.
  intros Hn Hk. destruct e as [page|c r|c r|dt|]; cbn [step].
  - split; [|apply has_timer_handle; [apply spares_setPage|exact Hk]].
    apply nonneg_commit. unfold setPage. destruct (negb _); [exact Hn|].
    now apply nonneg_update.
  - destruct (calls w !! c) as [k|]; [|now split].
    destruct (awaiting k); try now split.
    split; [|apply has_timer_handle; [apply spares_fetch_settled|exact Hk]].
    apply nonneg_commit. destruct r as [resp|err]; unfold fetch_settled;
      [destruct (ok resp); [exact Hn|]|]; now apply nonneg_catch.
  - destruct (calls w !! c) as [k|]; [|now split].
    destruct (awaiting k); try now split.
    split; [|apply has_timer_handle; [apply spares_json_settled|exact Hk]].
    apply nonneg_commit. destruct r as [data|err]; unfold json_settled;
      [now apply nonneg_finally, nonneg_update, nonneg_update|now apply nonneg_catch].
  - destruct (0 <=? dt) eqn:Hdt; [|now split].
    apply has_timer_elapse; try assumption; [now apply Z.leb_le|lia].
  - unfold unmount. destruct (mounted w); [|now split]. split.
    + intros t. cbn. intros [_ Ht]%list_elem_of_filter. now apply Hn.
    + intros Hm. discriminate.
Qed.

Lemma dismissal_is_timer (w : World) (r : Z) :
  r ∈ dismissals w -> exists t, t ∈ timers w /\ remaining t = r.
Proof.
  intros (t & Ht & Hr)%list_elem_of_omap. exists t. split; [exact Ht|].
  destruct (callback t); [now injection Hr|discriminate].
Qed.

(** X11: No error outlives its 3000 ms: in every state the mounted controller
    can reach, an error that is on display (a non-empty message) has
    exactly one auto-dismiss timer pending, with between 0 and 3000 ms to
    go, and whatever timers expire in between, [error] is [null] once
    3000 ms or more have passed. *)
Theorem error_is_dismissed_in_time (es : list Event) (m : string) :
  let w := run es mount in
  mounted w = true ->
  error (hook w) = Some m ->
  m <> "" ->
  (exists r, dismissals w = [r] /\ 0 <= r <= 3000) /\
  (forall dt, 3000 <= dt -> error (hook (step w (Elapse dt))) = None).
Proof.
  intros w Hm He Hne.
  assert (timers_nonneg w /\ error_has_timer w) as [Hn Hk].
  { subst w. clear Hm He. induction es as [|e es IH] using rev_ind.
    - split; [intros t Ht; now apply elem_of_nil in Ht|intros _; discriminate].
    - rewrite run_app. destruct IH as [Hn Hk]. now apply has_timer_step. }
  destruct (Hk Hm) as (r & Hr & Hle); [rewrite He; now apply truthy_nonempty|].
  assert (r ∈ dismissals w) as Hin by (rewrite Hr; now apply list_elem_of_singleton).
  split.
  - exists r. split; [exact Hr|]. split; [|exact Hle].
    destruct (dismissal_is_timer w r Hin) as (t & Ht & <-). now apply Hn.
  - intros dt Hdt. cbn [step]. rewrite (proj2 (Z.leb_le 0 dt)) by lia.
    apply elapse_dismisses; [exact Hm|lia|]. right. exists r. split; [exact Hin|lia].
Qed.

Lemma error_is_dismissed_in_time_witness :
  let es := [FetchSettled 0%nat (Fulfilled {| status := 404; statusText := "Not Found" |});
             Elapse 1200] in
  let w := run es mount in
  (exists r, dismissals w = [r] /\ 0 <= r <= 3000) /\
  (forall dt, 3000 <= dt -> error (hook (step w (Elapse dt))) = None).
Proof.
  intros es.
  apply (error_is_dismissed_in_time es "404: Not Found");
    [reflexivity|reflexivity|discriminate].
Defined.

(** * Properties of the component *)

Lemma press_cases (b : Press) (w : World) :
  press b w = w \/
  exists s, s <> "" /\ mounted w = true /\ loading (hook w) = false /\
            link b w = Some s /\ press b w = step w (SetPage (Some s)).
Proof.
  unfold press, view, Characters, useCharacters. cbn [r_loading r_pages r_error].
  destruct (mounted w) eqn:Hm; [|now left].
  destruct (loading (hook w)) eqn:Hl; [now left|].
  rewrite orb_false_r.
  destruct b; cbn [disabled onClick pv_previous pv_next link].
  - destruct (previous (pages (hook w))) as [s|] eqn:Hp; [|now left].
    cbn [truthy]. destruct (String.eqb_spec s "") as [->|Hs]; [now left|].
    right. exists s. now repeat split.
  - destruct (next (pages (hook w))) as [s|] eqn:Hp; [|now left].
    cbn [truthy]. destruct (String.eqb_spec s "") as [->|Hs]; [now left|].
    right. exists s. now repeat split.
Qed.

Lemma press_is_guarded_aux (b : Press) (w : World) :
  press b w <> w ->
  exists s, s <> "" /\ mounted w = true /\ loading (hook w) = false /\
            link b w = Some s /\ currentPage (hook w) <> Some s /\
            press b w = step w (SetPage (Some s)).
Proof.
  intros Hne. destruct (press_cases b w) as [Hw|(s & Hs & Hm & Hl & Hk & Hp)];
    [contradiction|].
  exists s. repeat split; try assumption.
  intros Hc. apply Hne. rewrite Hp. cbn [step]. now apply same_cursor_idle.
Qed.


(** X16: Once a press has started a sequence, the component shows the loading
    notice and no further press has any effect until an event arrives: the
    user interface cannot supersede a sequence that is still loading. *)
Theorem press_starts_loading (b b' : Press) (w : World) :
  press b w <> w ->
  view (press b w) = Loading /\ press b' (press b w) = press b w.
Proof.
  intros Hne.
  destruct (press_is_guarded_aux b w Hne) as (s & Hs & Hm & Hl & Hk & Hc & Hp).
  destruct (setPage_changes_cursor w s Hm Hs Hc) as (Hh & Hm' & _).
  rewrite Hp. cbn zeta in Hh, Hm'.
  assert (view (step w (SetPage (Some s))) = Loading) as Hv.
  { unfold view, Characters, useCharacters. cbn [r_loading]. now rewrite Hh. }
  split; [exact Hv|]. unfold press. now rewrite Hm', Hv.
Qed.


Lemma press_starts_loading_witness :
  let luke := {| url := "u1"; name := "Luke"; height := "172";
                 birth_year := "19BBY"; eye_color := "blue" |} in
  let data := {| data_previous := None; data_next := Some "p2"; results := [luke] |} in
  let w := run [FetchSettled 0%nat (Fulfilled {| status := 200; statusText := "OK" |});
                JsonSettled 0%nat (Fulfilled data)] mount in
  press PressNext w <> w /\
  view (press PressNext w) = Loading /\
  press PressPrev (press PressNext w) = press PressNext w.
Proof.
  intros luke data w.
  assert (press PressNext w <> w) as Hne.
  { intros H. apply (f_equal (fun v => currentPage (hook v))) in H.
    vm_compute in H. discriminate. }
  split; [exact Hne|]. apply (press_starts_loading PressNext PressPrev w Hne).
Defined.

(** X17: A failure that is surfaced is shown at once: when an event gives
    [error] a new, non-empty message, the component renders the list view
    with that message as its banner, not the loading notice. *)
Theorem surfaced_error_is_displayed (w : World) (e : Event) (m : string) :
  error (hook (step w e)) = Some m ->
  error (hook w) <> Some m ->
  m <> "" ->
  exists items prev next, view (step w e) = Page (Some m) items prev next.
Proof.
  intros He Hne Hm. pose proof (surfaced_then_loaded w e m He Hne) as Hl.
  unfold view, Characters, useCharacters. cbn [r_loading r_error].
  rewrite Hl, He, (truthy_nonempty m Hm). eauto.
Qed.

Lemma surfaced_error_is_displayed_witness :
  let e := FetchSettled 0%nat (Fulfilled {| status := 404; statusText := "Not Found" |}) in
  view mount = Loading /\
  exists items prev next,
    view (step mount e) = Page (Some "404: Not Found") items prev next.
Proof.
  intros e. split; [reflexivity|].
  apply (surfaced_error_is_displayed mount e "404: Not Found");
    [reflexivity|discriminate|discriminate].
Defined.

(** X18: From a decoded page to the next one: when the body that is decoded
    carries a non-empty [next] link other than the cursor, the component
    lists one item per result, keyed by its [url], with the Next button
    enabled; pressing it aborts the controller, makes the cursor that link
    and requests exactly that link, and the component shows the loading
    notice while the hook still holds the old items. *)
Theorem next_press_requests_next_link (w : World) (c : nat) (k : Call)
    (data : StarWarsApiResponse) (u : string) :
  mounted w = true ->
  calls w !! c = Some k ->
  awaiting k = AwaitJson ->
  data_next data = Some u ->
  u <> "" ->
  currentPage (hook w) <> Some u ->
  let w1 := step w (JsonSettled c (Fulfilled data)) in
  let w2 := press PressNext w1 in
  (exists banner prev,
     view w1 = Page banner
                 ((fun ch => {| item_key := url ch; item_text := name ch;
                                item_selects := ch |}) <$> results data)
                 prev {| disabled := false; onClick := Some u |}) /\
  w2 = step w1 (SetPage (Some u)) /\
  requests (log w2) = requests (log w) ++ [u] /\
  currentPage (hook w2) = Some u /\
  controller w ∈ aborted w2 /\
  view w2 = Loading /\
  shown w2 = page_of data.
Proof.
  intros Hm Hc Hk Hn Hu Hp w1 w2.
  assert (w1 = with_calls (delete c (calls w))
                 (update (setLoading false)
                    (update (setCharacters (results data))
                       (update (setPages {| previous := data_previous data;
                                            next := data_next data |}) w)))) as Hw1
    by (subst w1; now apply (decoded w c k)).
  assert (mounted w1 = true /\ loading (hook w1) = false /\
          pages (hook w1) = {| previous := data_previous data; next := Some u |} /\
          characters (hook w1) = results data /\
          currentPage (hook w1) = currentPage (hook w) /\
          log w1 = log w /\ controller w1 = controller w)
    as (Hm1 & Hl1 & Hpg1 & Hch1 & Hcp1 & Hlog1 & Hctl1).
  { rewrite Hw1, <- Hn. world w. now repeat split. }
  assert (w2 = step w1 (SetPage (Some u))) as Hw2.
  { subst w2. unfold press, view, Characters, useCharacters.
    cbn [r_loading r_pages pv_next disabled onClick].
    rewrite Hm1, Hl1, Hpg1. cbn [next]. now rewrite (truthy_nonempty u Hu). }
  clearbody w1 w2.
  destruct (setPage_changes_cursor w1 u Hm1 Hu) as (Hh & _ & _ & Hab & _ & Hl & _);
    [now rewrite Hcp1|].
  rewrite <- Hw2 in Hh, Hab, Hl.
  split.
  { unfold view, Characters, useCharacters. cbn [r_loading r_pages r_characters pv_next].
    rewrite Hl1, Hpg1, Hch1. cbn [next]. rewrite (truthy_nonempty u Hu). cbn. eauto. }
  split; [exact Hw2|].
  unfold view, Characters, useCharacters, shown, page_of. cbn [r_loading].
  rewrite Hh, Hab, Hl, Hlog1, Hctl1, requests_app. cbn. rewrite Hpg1, Hch1, <- Hn.
  repeat split. now left.
Qed.

Lemma next_press_requests_next_link_witness :
  let luke := {| url := "u1"; name := "Luke"; height := "172";
                 birth_year := "19BBY"; eye_color := "blue" |} in
  let data := {| data_previous := None; data_next := Some "p2"; results := [luke] |} in
  let w := step mount (FetchSettled 0%nat (Fulfilled {| status := 200; statusText := "OK" |})) in
  let w1 := step w (JsonSettled 0%nat (Fulfilled data)) in
  let w2 := press PressNext w1 in
  (exists banner prev,
     view w1 = Page banner
                 [{| item_key := "u1"; item_text := "Luke"; item_selects := luke |}]
                 prev {| disabled := false; onClick := Some "p2" |}) /\
  w2 = step w1 (SetPage (Some "p2")) /\
  requests (log w2) = [default_url; "p2"] /\
  currentPage (hook w2) = Some "p2" /\
  0%nat ∈ aborted w2 /\
  view w2 = Loading /\
  shown w2 = page_of data.
Proof.
  intros luke data w.
  apply (next_press_requests_next_link w 0%nat
           {| cursor := None; attempts := 0; awaiting := AwaitJson |} data "p2");
    try reflexivity; discriminate.
Defined.

(** * Every back-off ends *)

Lemma armed_calls (d : Z) (w w' : World) :
  (forall c k, calls w' !! c = Some k -> awaiting k = AwaitDelay ->
               calls w !! c = Some k) ->
  (forall t, t ∈ backoff_timers w -> t ∈ backoff_timers w') ->
  backoff_armed d w -> backoff_armed d w'.
Proof.
  intros Hc Ht Hw c k Hk Hd. destruct (Hw c k (Hc c k Hk Hd) Hd) as (t & Hin & Hcb & Hr).
  exists t. auto.
Qed.

Lemma armed_agree (d : Z) (w w' : World) :
  agree w w' -> backoff_armed d w -> backoff_armed d w'.
Proof.
  intros [_ _ _ _ Hc _ _ Hb]. apply armed_calls; [now rewrite Hc|now rewrite Hb].
Qed.

Lemma insert_not_delay (c : nat) (k' : Call) (m : gmap nat Call) (c0 : nat) (k0 : Call) :
  awaiting k' <> AwaitDelay ->
  <[c := k']> m !! c0 = Some k0 -> awaiting k0 = AwaitDelay -> m !! c0 = Some k0.
Proof.
  intros Hk'. destruct (decide (c = c0)) as [->|Hne].
  - rewrite lookup_insert_eq. intros [= <-] Hd. contradiction.
  - now rewrite lookup_insert_ne.
Qed.

Lemma delete_still (c : nat) (m : gmap nat Call) (c0 : nat) (k0 : Call) :
  delete c m !! c0 = Some k0 -> m !! c0 = Some k0.
Proof.
  destruct (decide (c = c0)) as [->|Hne];
    [now rewrite lookup_delete_eq|now rewrite lookup_delete_ne].
Qed.

Lemma armed_finally (d : Z) (c : nat) (k : Call) (w : World) :
  backoff_armed d w -> backoff_armed d (finally_ c k w).
Proof.
  rewrite finally_once. apply armed_calls.
  - intros c0 k0 Hk0 _. apply (delete_still c).
    destruct w as [h [] ? ? ? ? ?]; exact Hk0.
  - destruct w as [h [] ? ? ? ? ?]; now intros.
Qed.

Lemma armed_update (d : Z) (f : Hook -> Hook) (w : World) :
  backoff_armed d w -> backoff_armed d (update f w).
Proof. apply armed_calls; destruct w as [h [] ? ? ? ? ?]; now intros. Qed.

Lemma armed_catch (c : nat) (k : Call) (err : Thrown) (w : World) :
  0 <= attempts k ->
  backoff_armed 4000 w -> backoff_armed 4000 (catch_ c k err w).
Proof.
  intros Ha Hw. unfold catch_. destruct err as [n m cause|]; [|now apply armed_finally].
  destruct (negb _); [|now apply armed_finally].
  destruct (client_error cause); [now apply armed_finally, armed_update|].
  destruct (MAX_RETRIES <=? attempts k) eqn:Hmax; [now apply armed_finally, armed_update|].
  apply Z.leb_gt in Hmax. intros c0 k0. cbn [calls with_calls setTimeout emit with_timers].
  unfold backoff_timers. cbn [timers with_calls setTimeout emit with_timers].
  destruct (decide (c = c0)) as [->|Hne].
  - intros _ _. exists {| remaining := backoff (attempts k); callback := Backoff c0 |}.
    split; [|split; [reflexivity|]].
    + rewrite filter_app. apply elem_of_app. right. rewrite filter_cons.
      cbn. now left.
    + cbn. destruct (backoff_values (attempts k)) as [[_ ->]|[[_ ->]|[_ ->]]]; lia.
  - rewrite lookup_insert_ne by exact Hne. intros Hk0 Hd.
    destruct (Hw c0 k0 Hk0 Hd) as (t & Hin & Hcb & Hr). exists t.
    split; [|now split]. rewrite filter_app. apply elem_of_app. now left.
Qed.

Lemma armed_fetchData_enter (d : Z) (c : nat) (page : option string) (n : Z) (w : World) :
  backoff_armed d w -> backoff_armed d (fetchData_enter c page n w).
Proof.
  apply armed_calls.
  - intros c0 k0 Hk0 Hd. apply (insert_not_delay c _ _ c0 k0) in Hk0;
      [|discriminate|exact Hd].
    destruct w as [h [] ? ? ? ? ?]; exact Hk0.
  - destruct w as [h [] ? ? ? ? ?]; now intros.
Qed.

Lemma armed_commit (d : Z) (prev : Hook) (w : World) :
  backoff_armed d w -> backoff_armed d (commit prev w).
Proof.
  intros Hw. unfold commit. destruct (mounted w); [|exact Hw].
  assert (backoff_armed d (if decide (currentPage (hook w) = currentPage prev) then w
                           else fetch_effect (fetch_cleanup w))) as Hw1.
  { destruct (decide _); [exact Hw|]. unfold fetch_effect.
    apply armed_fetchData_enter. revert Hw. apply armed_calls; now intros. }
  destruct (decide (error _ = error prev)); [exact Hw1|].
  apply (armed_agree d _ _ (error_effect_agree _)), Hw1.
Qed.

Lemma armed_handler (w : World) (e : Event) :
  (forall dt, e <> Elapse dt) ->
  (forall c k, calls w !! c = Some k -> 0 <= attempts k) ->
  backoff_armed 4000 w -> backoff_armed 4000 (step w e).
Proof.
  intros He Hpos Hw. destruct e as [page|c r|c r|dt|]; cbn [step].
  - apply armed_commit. unfold setPage. destruct (negb _); [exact Hw|].
    now apply armed_update.
  - destruct (calls w !! c) as [k|] eqn:Hc; [|exact Hw].
    destruct (awaiting k); try exact Hw.
    apply armed_commit. destruct r as [resp|err]; unfold fetch_settled;
      [destruct (ok resp)|]; try (apply armed_catch; [now apply (Hpos c)|exact Hw]).
    revert Hw. apply armed_calls; [|now intros].
    intros c0 k0. now apply insert_not_delay.
  - destruct (calls w !! c) as [k|] eqn:Hc; [|exact Hw].
    destruct (awaiting k); try exact Hw.
    apply armed_commit. destruct r as [data|err]; unfold json_settled;
      [now apply armed_finally, armed_update, armed_update|].
    apply armed_catch; [now apply (Hpos c)|exact Hw].
  - now destruct (He dt).
  - unfold unmount. destruct (mounted w); [|exact Hw].
    revert Hw. apply armed_calls; [now intros|].
    intros t. unfold backoff_timers. cbn. now rewrite filter_filter_same.
Qed.


Lemma armed_weaken (d d' : Z) (w : World) :
  d <= d' -> backoff_armed d w -> backoff_armed d' w.
Proof.
  intros Hd Hw c k Hk Ha. destruct (Hw c k Hk Ha) as (t & Hin & Hcb & Hr).
  exists t. repeat split; [exact Hin|exact Hcb|lia].
Qed.

Lemma armed_age (d r : Z) (w : World) :
  backoff_armed d w -> backoff_armed (d - r) (age r w).
Proof.
  intros Hw c k Hk Ha. destruct (Hw c k Hk Ha) as (t & Hin & Hcb & Hr).
  exists {| remaining := remaining t - r; callback := callback t |}.
  split; [|split; [exact Hcb|cbn; lia]].
  unfold backoff_timers in *. apply list_elem_of_filter in Hin as [Hnd Hin].
  apply list_elem_of_filter. split; [exact Hnd|].
  unfold age. cbn [timers with_timers].
  now apply (list_elem_of_fmap_2
               (fun t => {| remaining := remaining t - r; callback := callback t |})).
Qed.

(** One turn of the loop of [elapse]: the timer that fires is that of the
    chain it wakes, and the other back-off timers stay. *)
Lemma armed_turn (d : Z) (t0 : Timer) (w : World) :
  backoff_armed d w ->
  backoff_armed (d - remaining t0)
    (fire (callback t0) (clearTimeout (callback t0) (age (remaining t0) w))).
Proof.
  intros Hw. apply (armed_age d (remaining t0)) in Hw.
  set (v := age (remaining t0) w) in *.
  assert (forall c k, calls v !! c = Some k -> awaiting k = AwaitDelay ->
            Backoff c <> callback t0 ->
            exists t, t ∈ backoff_timers (clearTimeout (callback t0) v) /\
                      callback t = Backoff c /\ remaining t <= d - remaining t0)
    as Hbut.
  { intros c k Hk Ha Hne. destruct (Hw c k Hk Ha) as (t & Hin & Hcb & Hr).
    exists t. split; [|now split]. unfold backoff_timers in *.
    apply list_elem_of_filter in Hin as [Hnd Hin].
    apply list_elem_of_filter. split; [exact Hnd|].
    unfold clearTimeout. cbn [timers with_timers].
    apply list_elem_of_filter. split; [congruence|exact Hin]. }
  destruct (callback t0) as [|c0]; cbn [fire].
  - apply armed_commit, armed_update. intros c k Hk Ha. now apply (Hbut c k).
  - change (calls (clearTimeout (Backoff c0) v)) with (calls v).
    destruct (calls v !! c0) as [call|] eqn:Hc0.
    + destruct (awaiting call) eqn:Hcall.
      1,2: intros c k Hk Ha; apply (Hbut c k Hk Ha); intros [= ->];
        change (calls v !! c0 = Some k) in Hk; congruence.
      apply armed_commit. unfold delay_elapsed.
      intros c k Hk Ha.
      assert (c <> c0 /\ calls v !! c = Some k) as [Hne Hk'].
      { revert Hk. unfold fetchData_enter.
        destruct (mounted (clearTimeout (Backoff c0) v)) eqn:Hm;
          unfold update; rewrite ?Hm; cbn [calls with_calls emit with_timers clearTimeout];
          (destruct (decide (c = c0)) as [->|Hne];
           [rewrite lookup_insert_eq; intros [= <-]; discriminate
           |rewrite lookup_insert_ne by congruence; now split]). }
      destruct (Hbut c k Hk' Ha) as (t & Hin & Hcb & Hr); [congruence|].
      exists t. split; [|now split]. revert Hin. unfold backoff_timers, fetchData_enter.
      destruct (mounted (clearTimeout (Backoff c0) v)) eqn:Hm;
        unfold update; rewrite ?Hm; now cbn.
    + intros c k Hk Ha. apply (Hbut c k Hk Ha). intros [= ->].
      change (calls v !! c0 = Some k) in Hk. congruence.
Qed.

Lemma armed_elapse (fuel : nat) (d dt : Z) (w : World) :
  (length (timers w) <= fuel)%nat ->
  backoff_armed d w -> backoff_armed (d - dt) (elapse fuel dt w).
Proof.
  revert d dt w. induction fuel as [|n IH]; intros d dt w Hlen Hw; cbn [elapse].
  - now apply armed_age.
  - destruct (due dt (timers w)) as [t0|] eqn:Hd; [|now apply armed_age].
    destruct (due_some _ _ _ Hd) as (Hin & _).
    replace (d - dt) with ((d - remaining t0) - (dt - remaining t0)) by lia.
    apply IH; [|now apply armed_turn].
    pose proof (elapse_turn_shorter t0 w Hin). lia.
Qed.

Lemma armed_step (w : World) (e : Event) :
  (forall c k, calls w !! c = Some k -> 0 <= attempts k) ->
  backoff_armed 4000 w -> backoff_armed 4000 (step w e).
Proof.
  intros Hpos Hw. destruct e as [page|c r|c r|dt|] eqn:He;
    try (rewrite <- He; apply armed_handler; [subst e; discriminate|assumption..]).
  cbn [step]. destruct (0 <=? dt) eqn:Hdt; [|exact Hw]. apply Z.leb_le in Hdt.
  apply (armed_weaken (4000 - dt)); [lia|]. now apply armed_elapse.
Qed.

Lemma armed_run (es : list Event) : backoff_armed 4000 (run es mount).
Proof.
  induction es as [|e es IH] using rev_ind.
  - intros c k. cbn. intros Hk Ha. apply lookup_insert_Some in Hk as [[_ <-]|[_ Hk]];
      [discriminate|]. now rewrite lookup_empty in Hk.
  - rewrite run_app. cbn [run fold_left]. apply armed_step; [|exact IH].
    intros c k Hk. pose proof (bounded_run es mount bounded_mount c) as (_ & Hb & _).
    destruct (Hb k Hk) as (Ha & _). lia.
Qed.

Lemma nonneg_run (es : list Event) : timers_nonneg (run es mount).
Proof.
  enough (timers_nonneg (run es mount) /\ error_has_timer (run es mount)) by tauto.
  induction es as [|e es IH] using rev_ind.
  - split; [intros t Ht; now apply elem_of_nil in Ht|intros _; discriminate].
  - rewrite run_app. destruct IH as [Hn Hk]. now apply has_timer_step.
Qed.

(** X13: No chain of [fetchData] is left in its back-off: in every state
    the hook can reach, a chain that waits for its delay has its timer
    armed, due in at most 4000 ms, and once 4000 ms or more have passed,
    whatever the order in which the timers expire, no chain is waiting for
    a delay any more. *)
Theorem backoff_always_ends (es : list Event) (dt : Z) :
  let w := run es mount in
  4000 <= dt ->
  (forall c k, calls w !! c = Some k -> awaiting k = AwaitDelay ->
     exists t, t ∈ timers w /\ callback t = Backoff c /\ 0 <= remaining t <= 4000) /\
  (forall c k, calls (step w (Elapse dt)) !! c = Some k -> awaiting k <> AwaitDelay).
Proof.
  intros w Hdt. pose proof (armed_run es) as Hw. fold w in Hw. split.
  - intros c k Hk Ha. destruct (Hw c k Hk Ha) as (t & Hin & Hcb & Hr).
    apply list_elem_of_filter in Hin as [_ Hin]. exists t.
    split; [exact Hin|split; [exact Hcb|]]. split; [|exact Hr].
    now apply (nonneg_run es).
  - intros c k Hk Ha. cbn [step] in Hk.
    rewrite (proj2 (Z.leb_le 0 dt)) in Hk by lia.
    destruct (armed_elapse (length (timers w)) 4000 dt w (le_n _) Hw c k Hk Ha)
      as (t & Hin & _ & Hr).
    apply list_elem_of_filter in Hin as [_ Hin].
    pose proof (elapse_fires_all_due _ dt w (le_n _) t Hin). lia.
Qed.


Lemma backoff_always_ends_witness :
  let w := run [FetchSettled 0%nat
                  (Fulfilled {| status := 503; statusText := "Service Unavailable" |})]
               mount in
  (calls w !! 0%nat = Some {| cursor := None; attempts := 0; awaiting := AwaitDelay |}) /\
  (forall c k, calls w !! c = Some k -> awaiting k = AwaitDelay ->
     exists t, t ∈ timers w /\ callback t = Backoff c /\ 0 <= remaining t <= 4000) /\
  (forall c k, calls (step w (Elapse 4000)) !! c = Some k -> awaiting k <> AwaitDelay).
Proof.
  intros w. split; [reflexivity|].
  apply (backoff_always_ends
           [FetchSettled 0%nat
              (Fulfilled {| status := 503; statusText := "Service Unavailable" |})] 4000).
  lia.
Defined.

(** * The auto-dismiss timer never leaks *)

(** X12: The cleanup of the error effect (lines 77-79) keeps at most one
    auto-dismiss timer: in every state the hook can reach there is none, or
    there is exactly one, with between 0 and 3000 ms to go, and then the
    component is mounted and an error is on display. *)
Theorem dismiss_timer_never_leaks (es : list Event) :
  let w := run es mount in
  dismissals w = [] \/
  exists r, dismissals w = [r] /\ 0 <= r <= 3000 /\
            mounted w = true /\ truthy (error (hook w)) = true.
Proof.
  intros w. destruct (dismiss_inv_run es mount dismiss_inv_mount) as [Hu He].
  fold w in Hu, He.
  destruct (mounted w) eqn:Hm; [|left; now apply Hu].
  destruct (truthy (error (hook w))) eqn:Ht; [|left; now apply He].
  right.
  assert (timers_nonneg w /\ error_has_timer w) as [Hn Hk].
  { subst w. clear. induction es as [|e es IH] using rev_ind.
    - split; [intros t Ht; now apply elem_of_nil in Ht|intros _; discriminate].
    - rewrite run_app. destruct IH as [Hn Hk]. now apply has_timer_step. }
  destruct (Hk Hm Ht) as (r & Hr & Hle). exists r.
  split; [exact Hr|]. split; [|now split]. split; [|exact Hle].
  assert (r ∈ dismissals w) as Hin by (rewrite Hr; now apply list_elem_of_singleton).
  destruct (dismissal_is_timer w r Hin) as (t & Hin' & <-). now apply Hn.
Qed.

(** * Instances *)

Lemma abort_is_silent_witness :
  let w := step mount (SetPage (Some "https://swapi.dev/api/people/?page=2")) in
  let w' := step w (FetchSettled 0%nat (Rejected abortError)) in
  0%nat ∈ aborted w /\
  error (hook w') = error (hook w) /\
  shown w' = shown w /\
  requests (log w') = requests (log w) /\
  timers w' = timers w /\
  calls w' !! 0%nat = None /\
  loading (hook w') = false.
Proof.
  intros w w'. split; [vm_compute; repeat constructor|].
  apply (abort_is_silent w 0%nat
           {| cursor := None; attempts := 0; awaiting := AwaitFetch |}
           (FetchSettled 0%nat (Rejected abortError))
           "The operation was aborted." None).
  - reflexivity.
  - reflexivity.
  - apply fetch_fails; reflexivity.
Defined.

Lemma retries_are_bounded_witness :
  let es := [FetchSettled 0%nat
               (Fulfilled {| status := 503; statusText := "Service Unavailable" |});
             Elapse 1000] in
  let w := run es mount in
  calls w !! 0%nat = Some {| cursor := None; attempts := 1; awaiting := AwaitFetch |} /\
  exists u n,
    sent 0%nat (log w) = replicate n u /\
    (n <= 4)%nat /\
    forall k, calls w !! 0%nat = Some k ->
      0 <= attempts k <= 3 /\
      n = S (Z.to_nat (attempts k)) /\
      u = request_url (cursor k).
Proof.
  intros es w. split; [reflexivity|]. apply (retries_are_bounded es 0%nat).
Defined.

Lemma one_live_sequence_witness :
  let es := [SetPage (Some "https://swapi.dev/api/people/?page=2")] in
  let w := run es mount in
  calls w !! 1%nat = Some {| cursor := Some "https://swapi.dev/api/people/?page=2";
                             attempts := 0; awaiting := AwaitFetch |} /\
  (1%nat ∉ aborted w) /\
  (1%nat ∈ aborted w <->
   ((1 < controller w)%nat \/ (1%nat = controller w /\ mounted w = false))) /\
  (forall k, calls w !! 1%nat = Some k -> 1%nat ∉ aborted w ->
             1%nat = controller w /\ mounted w = true).
Proof.
  intros es w. split; [reflexivity|]. split.
  - vm_compute. intros H. apply list_elem_of_singleton in H. discriminate.
  - apply (one_live_sequence es 1%nat).
Defined.
